(** * The Jacobi solver of the Laplace visualizer (src/main.py)

    The numerical core of [LaplaceScene.construct]: the zero-initialised
    [n x n] grid, the stamping of the Dirichlet edges and of the boundary
    mask, the relaxation loop with its Neumann edge updates, the
    convergence test and the final message.  The Manim calls between these
    lines (heat map, labels, animation) read the grid but assign none of
    the solver's variables, and are left out.

    Numbers are IEEE binary64, the element type of [np.zeros] and of the
    Python floats of the boundary dictionary: Rocq's primitive floats.
    A NumPy array is a list of rows; every indexing operation checks its
    bounds the way NumPy does and raises [IndexError] otherwise. *)

From Stdlib Require Import ZArith Floats Bool Lia.
From stdpp Require Import base tactics option list.

Local Open Scope Z_scope.

(** ** Python exceptions and the error monad *)

Inductive PyExn : Set :=
| IndexError
| ValueError.

Definition Py (A : Type) : Type := (PyExn + A)%type.

Definition raise {A : Type} (e : PyExn) : Py A := inl e.

Definition bind {A B : Type} (m : Py A) (k : A → Py B) : Py B :=
  match m with
  | inl e => inl e
  | inr a => k a
  end.

Notation "x <- m ;; k" := (bind m (fun x => k))
  (at level 100, m at next level, right associativity).

(** [for x in xs: body], the body threading the mutated state. *)
Fixpoint for_each {S : Type} (xs : list Z) (body : Z → S → Py S) (s : S) : Py S :=
  match xs with
  | [] => inr s
  | x :: xs' => s' <- body x s ;; for_each xs' body s'
  end.

(** [try: st1; st2; ... except Exception: print(...)]: every statement of
    the blocks below either raises before it writes or completes, so the
    state after the block is the state left by the last statement that
    completed. *)
Fixpoint try_block {S : Type} (stmts : list (S → Py S)) (s : S) : S :=
  match stmts with
  | [] => s
  | st :: rest =>
      match st s with
      | inr s' => try_block rest s'
      | inl _ => s
      end
  end.

(** The same statements outside a [try]. *)
Fixpoint block {S : Type} (stmts : list (S → Py S)) (s : S) : Py S :=
  match stmts with
  | [] => inr s
  | st :: rest => s' <- st s ;; block rest s'
  end.

(** [range(lo, hi)] *)
Definition range (lo hi : Z) : list Z := seqZ lo (hi - lo).

(** ** Square NumPy arrays *)

Abbreviation Array A := (list (list A)) (only parsing).
Abbreviation Grid := (list (list float)) (only parsing).

(** An array of shape [(n, n)]. *)
Definition shape {A : Type} (n : Z) (a : Array A) : Prop :=
  length a = Z.to_nat n ∧ ∀ r, r ∈ a → length r = Z.to_nat n.

(** The entry in row [i], column [j], counted from zero. *)
Definition cell {A : Type} (a : Array A) (i j : nat) : option A :=
  a !! i ≫= λ r, r !! j.

(** [np.zeros((n, n))]; a negative dimension is a [ValueError]. *)
Definition np_zeros {A : Type} (zero : A) (n : Z) : Py (Array A) :=
  if decide (n < 0) then raise ValueError
  else inr (replicate (Z.to_nat n) (replicate (Z.to_nat n) zero)).

(** An integer index on an axis of size [n]: negative indices count from
    the end, anything outside [-n .. n-1] is an [IndexError]. *)
Definition index (n i : Z) : Py nat :=
  if decide (0 ≤ i < n) then inr (Z.to_nat i)
  else if decide (- n ≤ i < 0) then inr (Z.to_nat (n + i))
  else raise IndexError.

(** Is position [k] of an axis of size [n] inside the slice [1:-1]? *)
Definition in_slice (n : Z) (k : nat) : bool :=
  bool_decide (1 ≤ Z.of_nat k < n - 1).

(** [a[i, j]] *)
Definition getitem {A : Type} (n : Z) (a : Array A) (i j : Z) : Py A :=
  i' <- index n i ;;
  j' <- index n j ;;
  match cell a i' j' with
  | Some x => inr x
  | None => raise IndexError
  end.

(** [a[i, j] = x] *)
Definition setitem {A : Type} (n : Z) (i j : Z) (x : A) (a : Array A) : Py (Array A) :=
  i' <- index n i ;;
  j' <- index n j ;;
  inr (alter (λ r, <[j' := x]> r) i' a).

(** [a[i, :] = x] *)
Definition set_row {A : Type} (n : Z) (i : Z) (x : A) (a : Array A) : Py (Array A) :=
  i' <- index n i ;;
  inr (alter (λ r, (λ _, x) <$> r) i' a).

(** [a[:, j] = x] *)
Definition set_col {A : Type} (n : Z) (j : Z) (x : A) (a : Array A) : Py (Array A) :=
  j' <- index n j ;;
  inr ((λ r, <[j' := x]> r) <$> a).

(** [a[dst, 1:-1] = f(a[src, 1:-1])] for an elementwise [f]: the right-hand
    side is a fresh array computed from the rows as they are before the
    assignment. *)
Definition set_row_from_row {A : Type} (n : Z) (dst src : Z) (f : A → A)
    (a : Array A) : Py (Array A) :=
  s' <- index n src ;;
  d' <- index n dst ;;
  let rhs := default [] (a !! s') in
  inr (alter (imap (λ k x, if in_slice n k then default x (f <$> rhs !! k) else x)) d' a).

(** [a[1:-1, dst] = f(a[1:-1, src])] *)
Definition set_col_from_col {A : Type} (n : Z) (dst src : Z) (f : A → A)
    (a : Array A) : Py (Array A) :=
  s' <- index n src ;;
  d' <- index n dst ;;
  inr (imap (λ k r, if in_slice n k
                    then match r !! s' with Some x => <[d' := f x]> r | None => r end
                    else r) a).

(** ** Floating-point reductions *)

(** [np.maximum] on two doubles: the first operand when it is the larger
    one or a NaN, the second otherwise. *)
Definition np_maximum (x y : float) : float :=
  if PrimFloat.leb y x || PrimFloat.is_nan x then x else y.

(** [np.abs(a - b)], elementwise. *)
Definition abs_diff (a b : Grid) : Grid :=
  zip_with (zip_with (λ x y, PrimFloat.abs (PrimFloat.sub x y))) a b.

(** [np.max(a)]: the reduction of a zero-size array is a [ValueError].
    The operands here are absolute values, never [-0.0], and Rocq's
    floats have one NaN, so the order in which NumPy combines the entries
    does not show in the result; they are taken in row-major order. *)
Definition np_max (a : Grid) : Py float :=
  match concat a with
  | [] => raise ValueError
  | x :: xs => inr (foldl np_maximum x xs)
  end.

(** ** Boundary conditions *)

Inductive BCType : Set :=
| dirichlet
| neumann.

Global Instance BCType_eq_dec : EqDecision BCType.
Proof. solve_decision. Defined.

(** One entry of the dictionary [bc]: [{'type': ..., 'value': ...}]. *)
Record BoundaryEdge : Set := {
  type : BCType;
  value : float
}.

(** The dictionary [bc], with its four keys. *)
Record BoundaryConditions : Set := {
  top : BoundaryEdge;
  bottom : BoundaryEdge;
  left : BoundaryEdge;
  right : BoundaryEdge
}.

(** [if cond: stmt] *)
Definition when {S : Type} (cond : bool) (stmt : S → Py S) (s : S) : Py S :=
  if cond then stmt s else inr s.

Definition is_dirichlet (e : BoundaryEdge) : bool := bool_decide (type e = dirichlet).
Definition is_neumann (e : BoundaryEdge) : bool := bool_decide (type e = neumann).

(** "Apply initial boundary conditions" *)
Definition apply_initial (n : Z) (bc : BoundaryConditions) (u : Grid) : Grid :=
  try_block
    [ when (is_dirichlet (top bc)) (set_row n 0 (value (top bc)));
      when (is_dirichlet (bottom bc)) (set_row n (-1) (value (bottom bc)));
      when (is_dirichlet (left bc)) (set_col n 0 (value (left bc)));
      when (is_dirichlet (right bc)) (set_col n (-1) (value (right bc))) ] u.

(** "Store boundary mask" *)
Definition make_mask (n : Z) (bc : BoundaryConditions) : Py (Array bool) :=
  m <- np_zeros false n ;;
  block
    [ when (is_dirichlet (top bc)) (set_row n 0 true);
      when (is_dirichlet (bottom bc)) (set_row n (-1) true);
      when (is_dirichlet (left bc)) (set_col n 0 true);
      when (is_dirichlet (right bc)) (set_col n (-1) true) ] m.

(** ** One relaxation sweep *)

Definition quarter : float := 0.25%float.

(** [0.25 * (a + b + c + d)], the sum taken left to right. *)
Definition mean4 (a b c d : float) : float :=
  PrimFloat.mul quarter (PrimFloat.add (PrimFloat.add (PrimFloat.add a b) c) d).

(** The body of the two nested loops. *)
Definition jacobi_cell (n : Z) (u : Grid) (boundary_mask : Array bool)
    (i j : Z) (u_new : Grid) : Py Grid :=
  m <- getitem n boundary_mask i j ;;
  if negb m then
    a <- getitem n u (i + 1) j ;;
    b <- getitem n u (i - 1) j ;;
    c <- getitem n u i (j + 1) ;;
    d <- getitem n u i (j - 1) ;;
    setitem n i j (mean4 a b c d) u_new
  else inr u_new.

(** "Jacobi iteration for interior points only" *)
Definition jacobi (n : Z) (u : Grid) (boundary_mask : Array bool) (u_new : Grid) : Py Grid :=
  for_each (range 1 (n - 1))
    (λ i, for_each (range 1 (n - 1)) (λ j, jacobi_cell n u boundary_mask i j)) u_new.

(** "Apply Neumann boundary conditions" *)
Definition apply_neumann (n : Z) (bc : BoundaryConditions) (u_new : Grid) : Grid :=
  try_block
    [ when (is_neumann (top bc))
        (set_row_from_row n 0 1 (λ x, PrimFloat.add x (value (top bc))));
      when (is_neumann (bottom bc))
        (set_row_from_row n (-1) (-2) (λ x, PrimFloat.sub x (value (bottom bc))));
      when (is_neumann (left bc))
        (set_col_from_col n 0 1 (λ x, PrimFloat.add x (value (left bc))));
      when (is_neumann (right bc))
        (set_col_from_col n (-1) (-2) (λ x, PrimFloat.sub x (value (right bc)))) ] u_new.

(** The new grid of one iteration: [u_new = u.copy()], the Jacobi loops,
    the Neumann updates. *)
Definition sweep (n : Z) (bc : BoundaryConditions) (boundary_mask : Array bool)
    (u : Grid) : Py Grid :=
  u_new <- jacobi n u boundary_mask u ;;
  inr (apply_neumann n bc u_new).

(** ** The solver loop *)

(** The variables the loop assigns.  [final_iteration] is unbound until
    convergence is declared. *)
Record LoopState : Type := {
  u : Grid;
  converged : bool;
  final_iteration : option Z;
  convergence_history : list float
}.

(** The convergence test of the loop. *)
Definition convergence_test (max_change tolerance : float) (iteration : Z) : bool :=
  PrimFloat.ltb max_change tolerance && bool_decide (iteration > 10).

(** The loop body up to [u = u_new]. *)
Definition iteration_body (n : Z) (bc : BoundaryConditions) (boundary_mask : Array bool)
    (tolerance : float) (iteration : Z) (st : LoopState) : Py LoopState :=
  u_new <- sweep n bc boundary_mask (u st) ;;
  max_change <- np_max (abs_diff u_new (u st)) ;;
  let history := convergence_history st ++ [max_change] in
  if convergence_test max_change tolerance iteration then
    inr {| u := u_new; converged := true;
           final_iteration := Some (iteration + 1);
           convergence_history := history |}
  else
    inr {| u := u_new; converged := converged st;
           final_iteration := final_iteration st;
           convergence_history := history |}.

(** [for iteration in range(max_iterations): ...; if converged: break] *)
Fixpoint iterate (n : Z) (bc : BoundaryConditions) (boundary_mask : Array bool)
    (tolerance : float) (iterations : list Z) (st : LoopState) : Py LoopState :=
  match iterations with
  | [] => inr st
  | iteration :: rest =>
      st' <- iteration_body n bc boundary_mask tolerance iteration st ;;
      if converged st' then inr st'
      else iterate n bc boundary_mask tolerance rest st'
  end.

(** The four inputs of the solver. *)
Record Config : Type := {
  grid_size : Z;
  boundary_conditions : BoundaryConditions;
  tolerance : float;
  max_iterations : Z
}.

(** The grid after "Apply initial boundary conditions". *)
Definition initial_grid (n : Z) (bc : BoundaryConditions) : Py Grid :=
  u0 <- np_zeros 0%float n ;;
  inr (apply_initial n bc u0).

(** The solver part of [construct]. *)
Definition solve (c : Config) : Py LoopState :=
  let n := grid_size c in
  let bc := boundary_conditions c in
  u0 <- initial_grid n bc ;;
  boundary_mask <- make_mask n bc ;;
  iterate n bc boundary_mask (tolerance c) (range 0 (max_iterations c))
    {| u := u0; converged := false; final_iteration := None;
       convergence_history := [] |}.

(** The count shown by the final message: [final_iteration] after
    convergence (it is bound whenever [converged] is set),
    [max_iterations] otherwise. *)
Definition iterations_run (c : Config) (r : LoopState) : Z :=
  if converged r then default 0 (final_iteration r) else max_iterations c.

(** * Vocabulary of the statements *)

(** ** Regions of the grid *)

(** Row [p], column [q] of an [n x n] array lies on the named edge. *)
Definition on_top (p q : nat) : bool := bool_decide (p = 0%nat).
Definition on_bottom (n : Z) (p q : nat) : bool := bool_decide (p = Z.to_nat (n - 1)).
Definition on_left (p q : nat) : bool := bool_decide (q = 0%nat).
Definition on_right (n : Z) (p q : nat) : bool := bool_decide (q = Z.to_nat (n - 1)).

(** The cell lies on an edge whose type is Dirichlet. *)
Definition dirichlet_cell (n : Z) (bc : BoundaryConditions) (p q : nat) : bool :=
  is_dirichlet (top bc) && on_top p q
  || is_dirichlet (bottom bc) && on_bottom n p q
  || is_dirichlet (left bc) && on_left p q
  || is_dirichlet (right bc) && on_right n p q.

(** The cells each Neumann statement writes: the edge without its two
    corners, when the edge's type is Neumann. *)
Definition top_update (n : Z) (bc : BoundaryConditions) (p q : nat) : bool :=
  is_neumann (top bc) && bool_decide (p = 0%nat) && in_slice n q.
Definition bottom_update (n : Z) (bc : BoundaryConditions) (p q : nat) : bool :=
  is_neumann (bottom bc) && bool_decide (p = Z.to_nat (n - 1)) && in_slice n q.
Definition left_update (n : Z) (bc : BoundaryConditions) (p q : nat) : bool :=
  is_neumann (left bc) && bool_decide (q = 0%nat) && in_slice n p.
Definition right_update (n : Z) (bc : BoundaryConditions) (p q : nat) : bool :=
  is_neumann (right bc) && bool_decide (q = Z.to_nat (n - 1)) && in_slice n p.

(** A cell some Neumann statement writes. *)
Definition neumann_cell (n : Z) (bc : BoundaryConditions) (p q : nat) : bool :=
  top_update n bc p q || bottom_update n bc p q
  || left_update n bc p q || right_update n bc p q.

(** ** Values of cells *)

(** A statement that writes [x] to the cells of a region and nothing else. *)
Definition stamps {A : Type} (n : Z) (st : list (list A) → Py (list (list A)))
    (R : nat → nat → bool) (x : A) : Prop :=
  ∀ a, shape n a →
    ∃ a', st a = inr a' ∧ shape n a' ∧
      ∀ p q, cell a' p q = if R p q then (λ _, x) <$> cell a p q else cell a p q.

(** The value a cell holds after the four stamping statements, run in the
    order top, bottom, left, right on a cell that held [old]: the value of
    the last Dirichlet edge through the cell, [old] when there is none. *)
Definition stamped {A : Type} (n : Z) (bc : BoundaryConditions)
    (vt vb vl vr : A) (p q : nat) (old : A) : A :=
  if is_dirichlet (right bc) && on_right n p q then vr
  else if is_dirichlet (left bc) && on_left p q then vl
  else if is_dirichlet (bottom bc) && on_bottom n p q then vb
  else if is_dirichlet (top bc) && on_top p q then vt
  else old.

(** The value of a cell, [0.0] outside the array. *)
Definition value_at (a : Grid) (p q : nat) : float := default 0%float (cell a p q).

(** The mean of the four axis-neighbours of cell [(p, q)] in [a], as the
    loop body computes it: below, above, right, left. *)
Definition mean_at (a : Grid) (p q : nat) : float :=
  mean4 (value_at a (p + 1) q) (value_at a (p - 1) q)
        (value_at a p (q + 1)) (value_at a p (q - 1)).

(** ** Runs *)

(** [boundary_mask] is the mask the solver derives from [bc]. *)
Definition boundary_mask_of (n : Z) (bc : BoundaryConditions)
    (boundary_mask : list (list bool)) : Prop :=
  shape n boundary_mask ∧
  ∀ p q, Z.of_nat p < n → Z.of_nat q < n →
    cell boundary_mask p q = Some (dirichlet_cell n bc p q).

(** The grid after [k] iterations of the loop body, from the grid [a]:
    the grid iteration [k] starts from.  The loop of [solve] runs these
    sweeps until it breaks or reaches its cap. *)
Fixpoint sweeps (n : Z) (bc : BoundaryConditions) (boundary_mask : list (list bool))
    (k : nat) (a : Grid) : Py Grid :=
  match k with
  | O => inr a
  | S k' => a' <- sweep n bc boundary_mask a ;; sweeps n bc boundary_mask k' a'
  end.

(** The variables of the loop before its first iteration. *)
Definition initial_state (u0 : Grid) : LoopState :=
  {| u := u0; converged := false; final_iteration := None; convergence_history := [] |}.

(** [a] has shape [(n, n)] and agrees with [u0] on the cells of the
    Dirichlet edges. *)
Definition dirichlet_fixed (n : Z) (bc : BoundaryConditions) (u0 a : Grid) : Prop :=
  shape n a ∧ ∀ p q, dirichlet_cell n bc p q = true → cell a p q = cell u0 p q.

(** [a] has shape [(n, n)] and agrees with [u0] on the cells that lie
    outside the slice [1:-1] in both directions: the four corners. *)
Definition corners_fixed (n : Z) (u0 a : Grid) : Prop :=
  shape n a ∧
  ∀ p q, in_slice n p = false → in_slice n q = false → cell a p q = cell u0 p q.

(** ** The solver without the mask test *)

(** The variant the last claim compares the solver with: the body of the
    Jacobi loops without [if not boundary_mask[i, j]], everything else as
    in the source. *)
Definition jacobi_cell_unmasked (n : Z) (u : Grid) (i j : Z) (u_new : Grid) : Py Grid :=
  a <- getitem n u (i + 1) j ;;
  b <- getitem n u (i - 1) j ;;
  c <- getitem n u i (j + 1) ;;
  d <- getitem n u i (j - 1) ;;
  setitem n i j (mean4 a b c d) u_new.

Definition jacobi_unmasked (n : Z) (u : Grid) (u_new : Grid) : Py Grid :=
  for_each (range 1 (n - 1))
    (λ i, for_each (range 1 (n - 1)) (λ j, jacobi_cell_unmasked n u i j)) u_new.

Definition sweep_unmasked (n : Z) (bc : BoundaryConditions) (u : Grid) : Py Grid :=
  u_new <- jacobi_unmasked n u u ;;
  inr (apply_neumann n bc u_new).

Definition iteration_body_unmasked (n : Z) (bc : BoundaryConditions)
    (tolerance : float) (iteration : Z) (st : LoopState) : Py LoopState :=
  u_new <- sweep_unmasked n bc (u st) ;;
  max_change <- np_max (abs_diff u_new (u st)) ;;
  let history := convergence_history st ++ [max_change] in
  if convergence_test max_change tolerance iteration then
    inr {| u := u_new; converged := true;
           final_iteration := Some (iteration + 1);
           convergence_history := history |}
  else
    inr {| u := u_new; converged := converged st;
           final_iteration := final_iteration st;
           convergence_history := history |}.

Fixpoint iterate_unmasked (n : Z) (bc : BoundaryConditions)
    (tolerance : float) (iterations : list Z) (st : LoopState) : Py LoopState :=
  match iterations with
  | [] => inr st
  | iteration :: rest =>
      st' <- iteration_body_unmasked n bc tolerance iteration st ;;
      if converged st' then inr st'
      else iterate_unmasked n bc tolerance rest st'
  end.

(** The solver with the mask still built, but never consulted. *)
Definition solve_unmasked (c : Config) : Py LoopState :=
  let n := grid_size c in
  let bc := boundary_conditions c in
  u0 <- initial_grid n bc ;;
  boundary_mask <- make_mask n bc ;;
  iterate_unmasked n bc (tolerance c) (range 0 (max_iterations c))
    {| u := u0; converged := false; final_iteration := None;
       convergence_history := [] |}.

(** ** Example inputs *)

(** All four edges Dirichlet at the value [V]. *)
Definition uniform_dirichlet (V : float) : BoundaryConditions :=
  {| top := {| type := dirichlet; value := V |};
     bottom := {| type := dirichlet; value := V |};
     left := {| type := dirichlet; value := V |};
     right := {| type := dirichlet; value := V |} |}.

(** An all-Neumann run of one iteration on a [4 x 4] grid. *)
Definition neumann_corner_example : Config :=
  {| grid_size := 4;
     boundary_conditions :=
       {| top := {| type := neumann; value := 1%float |};
          bottom := {| type := neumann; value := 2%float |};
          left := {| type := neumann; value := 4%float |};
          right := {| type := neumann; value := 8%float |} |};
     tolerance := 0.0009765625%float;
     max_iterations := 1 |}.

(** A grid with no interior. *)
Definition small_grid_example : Config :=
  {| grid_size := 2; boundary_conditions := uniform_dirichlet 1%float;
     tolerance := 0.0009765625%float; max_iterations := 3 |}.



(** One iteration on a [5 x 5] grid with every edge held at 100. *)
Definition steady_state_example : Config :=
  {| grid_size := 5; boundary_conditions := uniform_dirichlet 100%float;
     tolerance := 0.0009765625%float; max_iterations := 1 |}.

(** The same grid and edges with an iteration cap large enough for the
    tolerance to be met. *)
Definition converging_example : Config :=
  {| grid_size := 5; boundary_conditions := uniform_dirichlet 100%float;
     tolerance := 0.0009765625%float; max_iterations := 500 |}.


(** Mixed edge types with every boundary value zero. *)
Definition zero_values_example : Config :=
  {| grid_size := 5;
     boundary_conditions :=
       {| top := {| type := dirichlet; value := 0%float |};
          bottom := {| type := neumann; value := 0%float |};
          left := {| type := neumann; value := 0%float |};
          right := {| type := dirichlet; value := 0%float |} |};
     tolerance := 0.0009765625%float;
     max_iterations := 20 |}.


(** * The presentation code around the solver *)

(** The parts of [construct] that decide what is drawn, without the Manim
    objects themselves: which iterations are played as frames, the data
    of the convergence plot, and the values the heat map colours. *)

(** ** The values of the heat map *)

(** [np.fmin] and [np.fmax] on two doubles, the reductions behind
    [np.nanmin] and [np.nanmax]: a NaN operand loses to a number. *)
Definition np_fmin (x y : float) : float :=
  if PrimFloat.leb x y || PrimFloat.is_nan y then x else y.

Definition np_fmax (x y : float) : float :=
  if PrimFloat.leb y x || PrimFloat.is_nan y then x else y.

Definition np_nanmin (a : Grid) : Py float :=
  match concat a with
  | [] => raise ValueError
  | x :: xs => inr (foldl np_fmin x xs)
  end.

Definition np_nanmax (a : Grid) : Py float :=
  match concat a with
  | [] => raise ValueError
  | x :: xs => inr (foldl np_fmax x xs)
  end.

(** [np.clip(x, 0, 1)] on one double: a NaN stays, anything not above 0
    becomes 0, anything not below 1 becomes 1. *)
Definition clip01 (x : float) : float :=
  let lower := if PrimFloat.is_nan x then x
               else if PrimFloat.ltb 0 x then x else 0%float in
  if PrimFloat.is_nan lower then lower
  else if PrimFloat.ltb lower 1 then lower else 1%float.

Definition is_inf (x : float) : bool :=
  PrimFloat.eqb x infinity || PrimFloat.eqb x neg_infinity.

(** The double Python reads [1e-12] as. *)
Definition heatmap_epsilon : float := 0x1.19799812dea11p-40%float.

(** The numeric part of [create_heatmap]: the normalised values that pick
    the colours, with [vmin] and [vmax]. *)
Definition heatmap_values (data : Grid) : Py (Grid * float * float) :=
  let data :=
    if forallb PrimFloat.is_nan (concat data) || forallb is_inf (concat data)
    then (λ row : list float, (λ _, 0%float) <$> row) <$> data
    else data in
  vmin <- np_nanmin data ;;
  vmax <- np_nanmax data ;;
  let vmax :=
    if PrimFloat.ltb (PrimFloat.abs (PrimFloat.sub vmax vmin)) heatmap_epsilon
    then PrimFloat.add vmin 1 else vmax in
  let normalized :=
    (λ row : list float,
       (λ x, clip01 (PrimFloat.div (PrimFloat.sub x vmin)
                                   (PrimFloat.sub vmax vmin))) <$> row) <$> data in
  inr (normalized, vmin, vmax).

(** ** Frames of the animation *)

(** [max(1, max_iterations // 25)] *)
Definition update_freq (max_iterations : Z) : Z := Z.max 1 (max_iterations / 25).

(** [iteration % update_freq == 0 or converged or
    iteration == max_iterations - 1] *)
Definition shows_frame (max_iterations iteration : Z) (converged : bool) : bool :=
  bool_decide (iteration mod update_freq max_iterations = 0)
  || converged
  || bool_decide (iteration = max_iterations - 1).

(** What one [self.play] of the loop displays: "Iteration:
    [iteration + 1]", what [create_heatmap(u)] returned and "Max Change:
    [max_change]". *)
Record Frame : Type := {
  shown_iteration : Z;
  shown_heatmap : Grid * float * float;
  shown_max_change : float
}.

(** The whole loop body, with the frame it plays. *)
Definition animated_body (n : Z) (bc : BoundaryConditions) (boundary_mask : Array bool)
    (tolerance : float) (max_iterations : Z) (iteration : Z)
    (st : LoopState) (played : list Frame) : Py (LoopState * list Frame) :=
  u_new <- sweep n bc boundary_mask (u st) ;;
  max_change <- np_max (abs_diff u_new (u st)) ;;
  let history := convergence_history st ++ [max_change] in
  let st' :=
    if convergence_test max_change tolerance iteration then
      {| u := u_new; converged := true;
         final_iteration := Some (iteration + 1);
         convergence_history := history |}
    else
      {| u := u_new; converged := converged st;
         final_iteration := final_iteration st;
         convergence_history := history |} in
  if shows_frame max_iterations iteration (converged st') then
    new_heatmap <- heatmap_values (u st') ;;
    inr (st', played ++ [ {| shown_iteration := iteration + 1;
                             shown_heatmap := new_heatmap;
                             shown_max_change := max_change |} ])
  else inr (st', played).

(** The loop with its frames. *)
Fixpoint animate (n : Z) (bc : BoundaryConditions) (boundary_mask : Array bool)
    (tolerance : float) (max_iterations : Z) (iterations : list Z)
    (st : LoopState) (played : list Frame) : Py (LoopState * list Frame) :=
  match iterations with
  | [] => inr (st, played)
  | iteration :: rest =>
      r <- animated_body n bc boundary_mask tolerance max_iterations iteration st played ;;
      if converged (fst r) then inr r
      else animate n bc boundary_mask tolerance max_iterations rest (fst r) (snd r)
  end.

(** [construct] up to the end of the loop: the set-up, the initial heat
    map, and the loop with the frames it plays. *)
Definition solve_animated (c : Config) : Py (LoopState * list Frame) :=
  let n := grid_size c in
  let bc := boundary_conditions c in
  u0 <- initial_grid n bc ;;
  boundary_mask <- make_mask n bc ;;
  heatmap <- heatmap_values u0 ;;
  animate n bc boundary_mask (tolerance c) (max_iterations c)
    (range 0 (max_iterations c))
    {| u := u0; converged := false; final_iteration := None;
       convergence_history := [] |} [].

(** ** The convergence plot *)








(** ** Recorded changes *)

(** A recorded change is the absolute value of some difference. *)
Definition is_abs (m : float) : Prop := ∃ w, m = PrimFloat.abs w.

(** ** Mirror images *)


(** * Properties *)

(** ** The model on concrete inputs *)

(** One iteration with four Neumann edges: the Jacobi loops leave the
    zero interior at zero, each edge gets its interior neighbour plus or
    minus the edge's value between the corners, the corners stay zero,
    and the largest change is the 8 of the right edge. *)
Example solve_neumann_corner_example :
  solve neumann_corner_example =
  inr {| u := [ [0%float; 1%float; 1%float; 0%float];
                [4%float; 0%float; 0%float; (-8)%float];
                [4%float; 0%float; 0%float; (-8)%float];
                [0%float; (-2)%float; (-2)%float; 0%float] ];
         converged := false;
         final_iteration := None;
         convergence_history := [8%float] |}.
Proof. vm_compute. reflexivity. Qed.

(** One iteration with four Dirichlet edges at 100: each interior cell is
    a quarter of the sum of its neighbours in the stamped grid. *)
Example solve_steady_state_example :
  solve steady_state_example =
  inr {| u := [ [100%float; 100%float; 100%float; 100%float; 100%float];
                [100%float; 50%float; 25%float; 50%float; 100%float];
                [100%float; 25%float; 0%float; 25%float; 100%float];
                [100%float; 50%float; 25%float; 50%float; 100%float];
                [100%float; 100%float; 100%float; 100%float; 100%float] ];
         converged := false;
         final_iteration := None;
         convergence_history := [50%float] |}.
Proof. vm_compute. reflexivity. Qed.

(** The same grid run to convergence. *)
Example solve_converging_example :
  ∃ r, solve converging_example = inr r ∧
       converged r = true ∧ final_iteration r = Some 32 ∧
       length (convergence_history r) = 32%nat.
Proof. eexists. split; [vm_compute; reflexivity|]. vm_compute. by split_and!. Qed.

(** NumPy's errors on grids without cells. *)
Example solve_negative_size :
  solve {| grid_size := -1; boundary_conditions := uniform_dirichlet 1%float;
           tolerance := 0.0009765625%float; max_iterations := 3 |}
  = inl ValueError.
Proof. reflexivity. Qed.

Example solve_size_zero_dirichlet :
  solve {| grid_size := 0; boundary_conditions := uniform_dirichlet 1%float;
           tolerance := 0.0009765625%float; max_iterations := 3 |}
  = inl IndexError.
Proof. reflexivity. Qed.

Example solve_size_zero_neumann :
  solve {| grid_size := 0;
           boundary_conditions := boundary_conditions neumann_corner_example;
           tolerance := 0.0009765625%float; max_iterations := 3 |}
  = inl ValueError.
Proof. reflexivity. Qed.

(** ** The error monad and the loops *)

Lemma bind_inr {A B : Type} (m : Py A) (k : A → Py B) (b : B) :
  bind m k = inr b ↔ ∃ a, m = inr a ∧ k a = inr b.
Proof.
  destruct m as [e|a]; simpl; split.
  - discriminate.
  - intros (a & Ha & _). discriminate.
  - eauto.
  - intros (a' & Ha & Hk). by simplify_eq.
Qed.

Lemma for_each_ext {S : Type} (xs : list Z) (f g : Z → S → Py S) (s : S) :
  (∀ x s', x ∈ xs → f x s' = g x s') →
  for_each xs f s = for_each xs g s.
Proof.
  revert s. induction xs as [|x xs IH]; intros s Hfg; simpl; [done|].
  rewrite (Hfg x s) by left.
  destruct (g x s) as [e|s']; simpl; [done|].
  apply IH. intros y s'' Hy. apply Hfg. by right.
Qed.

Lemma try_block_preserves {S : Type} (P : S → Prop) (stmts : list (S → Py S)) (s : S) :
  Forall (λ st, ∀ s0 s1, P s0 → st s0 = inr s1 → P s1) stmts →
  P s → P (try_block stmts s).
Proof.
  intros Hall. revert s. induction Hall as [|st rest Hst _ IH]; intros s Hs; simpl; [done|].
  destruct (st s) as [e|s'] eqn:E; [done|]. eauto.
Qed.

Lemma block_preserves {S : Type} (P : S → Prop) (stmts : list (S → Py S)) (s s' : S) :
  Forall (λ st, ∀ s0 s1, P s0 → st s0 = inr s1 → P s1) stmts →
  P s → block stmts s = inr s' → P s'.
Proof.
  intros Hall. revert s. induction Hall as [|st rest Hst _ IH]; intros s Hs; simpl.
  - intros ?; by simplify_eq.
  - intros (s1 & E1 & E2)%bind_inr. eauto.
Qed.

Lemma when_preserves {S : Type} (P : S → Prop) (c : bool) (st : S → Py S) :
  (c = true → ∀ s0 s1, P s0 → st s0 = inr s1 → P s1) →
  ∀ s0 s1, P s0 → when c st s0 = inr s1 → P s1.
Proof.
  intros Hst s0 s1 H0. unfold when. destruct c; [by eauto|]. intros ?; by simplify_eq.
Qed.

Lemma elem_of_range (lo hi k : Z) : k ∈ range lo hi ↔ lo ≤ k < hi.
Proof. unfold range. rewrite elem_of_seqZ. lia. Qed.

(** ** Indexing *)

Lemma index_inr (n i : Z) (k : nat) :
  index n i = inr k →
  (0 ≤ i < n ∧ k = Z.to_nat i) ∨ (- n ≤ i < 0 ∧ k = Z.to_nat (n + i)).
Proof.
  unfold index, raise. repeat case_decide; intros ?; simplify_eq; auto.
Qed.

Lemma index_lt (n i : Z) (k : nat) : index n i = inr k → Z.of_nat k < n.
Proof. intros [[? ->]|[? ->]]%index_inr; lia. Qed.

Lemma index_nonneg (n i : Z) : 0 ≤ i < n → index n i = inr (Z.to_nat i).
Proof. intros. unfold index. by rewrite decide_True. Qed.

Lemma index_last (n : Z) : 1 ≤ n → index n (-1) = inr (Z.to_nat (n - 1)).
Proof.
  intros. unfold index. rewrite decide_False, decide_True by lia.
  repeat f_equal; lia.
Qed.

Lemma index_before_last (n : Z) : 2 ≤ n → index n (-2) = inr (Z.to_nat (n - 2)).
Proof.
  intros. unfold index. rewrite decide_False, decide_True by lia.
  repeat f_equal; lia.
Qed.

Lemma in_slice_true (n : Z) (k : nat) : in_slice n k = true ↔ 1 ≤ Z.of_nat k < n - 1.
Proof. unfold in_slice. by rewrite bool_decide_eq_true. Qed.

Lemma in_slice_false (n : Z) (k : nat) : in_slice n k = false ↔ ¬ (1 ≤ Z.of_nat k < n - 1).
Proof. unfold in_slice. by rewrite bool_decide_eq_false. Qed.

Section arrays.
Context {A : Type}.
Implicit Types (a b : list (list A)) (r : list A) (x y : A) (i j p q : nat) (n : Z).

Lemma shape_row n a i r : shape n a → a !! i = Some r → length r = Z.to_nat n.
Proof. intros [_ Hr] Hi. apply Hr. by eapply list_elem_of_lookup_2. Qed.

Lemma shape_cell n a i j :
  shape n a → Z.of_nat i < n → Z.of_nat j < n → is_Some (cell a i j).
Proof.
  intros Ha Hi Hj. unfold cell.
  destruct (lookup_lt_is_Some_2 a i) as [r Hr]; [destruct Ha; lia|].
  rewrite Hr. simpl. apply lookup_lt_is_Some_2.
  rewrite (shape_row n a i r) by done. lia.
Qed.

Lemma cell_lt n a i j x :
  shape n a → cell a i j = Some x → Z.of_nat i < n ∧ Z.of_nat j < n.
Proof.
  intros Ha. unfold cell. destruct (a !! i) as [r|] eqn:Hr; simpl; [|done].
  intros Hj%lookup_lt_Some. apply lookup_lt_Some in Hr as Hi.
  rewrite (shape_row n a i r) in Hj by done. destruct Ha. lia.
Qed.

Lemma array_ext n a b :
  shape n a → shape n b → (∀ i j, cell a i j = cell b i j) → a = b.
Proof.
  intros Ha Hb Hab. apply list_eq. intros i.
  destruct (a !! i) as [ra|] eqn:Hra, (b !! i) as [rb|] eqn:Hrb.
  - f_equal. apply list_eq. intros j.
    specialize (Hab i j). unfold cell in Hab. by rewrite Hra, Hrb in Hab.
  - apply lookup_lt_Some in Hra. apply lookup_ge_None in Hrb.
    destruct Ha, Hb. lia.
  - apply lookup_lt_Some in Hrb. apply lookup_ge_None in Hra.
    destruct Ha, Hb. lia.
  - done.
Qed.

Lemma shape_alter n a i (f : list A → list A) :
  (∀ r, length (f r) = length r) → shape n a → shape n (alter f i a).
Proof.
  intros Hf [Hlen Hrows]. split; [by rewrite length_alter|].
  intros r (k & Hk)%list_elem_of_lookup_1.
  destruct (decide (i = k)) as [->|Hne].
  - rewrite list_lookup_alter_eq in Hk.
    destruct (a !! k) as [r0|] eqn:Hr0; simplify_eq/=.
    rewrite Hf. apply Hrows. by eapply list_elem_of_lookup_2.
  - rewrite list_lookup_alter_ne in Hk by done.
    apply Hrows. by eapply list_elem_of_lookup_2.
Qed.

Lemma shape_fmap n a (f : list A → list A) :
  (∀ r, length (f r) = length r) → shape n a → shape n (f <$> a).
Proof.
  intros Hf [Hlen Hrows]. split; [by rewrite length_fmap|].
  intros r (r0 & -> & Hr0)%list_elem_of_fmap. rewrite Hf. by apply Hrows.
Qed.

Lemma shape_imap n a (f : nat → list A → list A) :
  (∀ k r, length (f k r) = length r) → shape n a → shape n (imap f a).
Proof.
  intros Hf [Hlen Hrows]. split; [by rewrite length_imap|].
  intros r (k & Hk)%list_elem_of_lookup_1.
  rewrite list_lookup_imap in Hk.
  destruct (a !! k) as [r0|] eqn:Hr0; simplify_eq/=.
  rewrite Hf. apply Hrows. by eapply list_elem_of_lookup_2.
Qed.

Lemma shape_replicate n x : 0 ≤ n → shape n (replicate (Z.to_nat n) (replicate (Z.to_nat n) x)).
Proof.
  intros _. split; [by rewrite length_replicate|].
  intros r ->%elem_of_replicate_inv. by rewrite length_replicate.
Qed.

Lemma cell_replicate (m : nat) x i j :
  cell (replicate m (replicate m x)) i j = if decide (i < m ∧ j < m)%nat then Some x else None.
Proof.
  unfold cell. case_decide as H.
  - destruct H. rewrite lookup_replicate_2 by done. simpl. by rewrite lookup_replicate_2.
  - destruct (decide (i < m)%nat).
    + rewrite lookup_replicate_2 by done. simpl.
      apply lookup_replicate_None. lia.
    + rewrite (proj1 (lookup_replicate_None m _ i)) by lia. done.
Qed.

(** [a[i, j]] on an array of shape [(n, n)] *)
Lemma getitem_cell n a (i j : Z) x :
  shape n a → 0 ≤ i < n → 0 ≤ j < n →
  getitem n a i j = inr x ↔ cell a (Z.to_nat i) (Z.to_nat j) = Some x.
Proof.
  intros Ha Hi Hj. unfold getitem. rewrite !index_nonneg by done. simpl.
  destruct (cell a (Z.to_nat i) (Z.to_nat j)) as [y|] eqn:E.
  - split; intros ?; by simplify_eq.
  - destruct (shape_cell n a (Z.to_nat i) (Z.to_nat j)) as [y Hy]; [done|lia|lia|].
    congruence.
Qed.

Lemma getitem_total n a (i j : Z) :
  shape n a → 0 ≤ i < n → 0 ≤ j < n → ∃ x, getitem n a i j = inr x.
Proof.
  intros Ha Hi Hj.
  destruct (shape_cell n a (Z.to_nat i) (Z.to_nat j)) as [y Hy]; [done|lia|lia|].
  exists y. by apply getitem_cell.
Qed.

Lemma cell_alter a (f : list A → list A) i p q :
  cell (alter f i a) p q =
  if decide (p = i) then a !! i ≫= λ r, f r !! q else cell a p q.
Proof.
  unfold cell. case_decide as H.
  - subst p. rewrite list_lookup_alter_eq. by destruct (a !! i).
  - by rewrite list_lookup_alter_ne.
Qed.

(** [a[i, j] = x]: the written cell and the frame *)
Lemma cell_setitem n a (i j : Z) x a' :
  shape n a → setitem n i j x a = inr a' →
  ∃ i' j', index n i = inr i' ∧ index n j = inr j' ∧ shape n a' ∧
    cell a' i' j' = Some x ∧
    ∀ p q, (p, q) ≠ (i', j') → cell a' p q = cell a p q.
Proof.
  intros Ha. unfold setitem.
  intros (i' & Hi & (j' & Hj & E)%bind_inr)%bind_inr. simplify_eq.
  exists i', j'. split_and!; [done|done| | |].
  - apply shape_alter; [|done]. intros r. by rewrite length_insert.
  - rewrite cell_alter, decide_True by done.
    destruct (lookup_lt_is_Some_2 a i') as [r Hr].
    { apply index_lt in Hi. destruct Ha. lia. }
    rewrite Hr. simpl. apply list_lookup_insert_eq.
    rewrite (shape_row n a i' r) by done. apply index_lt in Hj. lia.
  - intros p q Hpq. rewrite cell_alter. case_decide; [|done]. subst p.
    unfold cell. destruct (a !! i'); simpl; [|done].
    apply list_lookup_insert_ne. congruence.
Qed.

(** [a[i, :] = x] *)
Lemma cell_set_row n a (i : Z) x a' :
  shape n a → set_row n i x a = inr a' →
  ∃ i', index n i = inr i' ∧ shape n a' ∧
    ∀ p q, cell a' p q = if decide (p = i') then (λ _, x) <$> cell a p q else cell a p q.
Proof.
  intros Ha. unfold set_row. intros (i' & Hi & E)%bind_inr. simplify_eq.
  exists i'. split_and!; [done| |].
  - apply shape_alter; [|done]. intros r. by rewrite length_fmap.
  - intros p q. rewrite cell_alter. case_decide; [|done]. subst p.
    unfold cell. destruct (a !! i'); simpl; [|done].
    rewrite list_lookup_fmap. by destruct (l !! q).
Qed.

(** [a[:, j] = x] *)
Lemma cell_set_col n a (j : Z) x a' :
  shape n a → set_col n j x a = inr a' →
  ∃ j', index n j = inr j' ∧ shape n a' ∧
    ∀ p q, cell a' p q = if decide (q = j') then (λ _, x) <$> cell a p q else cell a p q.
Proof.
  intros Ha. unfold set_col. intros (j' & Hj & E)%bind_inr. simplify_eq.
  exists j'. split_and!; [done| |].
  - apply shape_fmap; [|done]. intros r. by rewrite length_insert.
  - intros p q. unfold cell. rewrite list_lookup_fmap.
    destruct (a !! p) as [r|] eqn:Hr; simpl; [|by case_decide].
    rewrite list_lookup_insert. destruct (decide (q = j')) as [->|Hq].
    + destruct (r !! j') as [y|] eqn:Hy; simpl.
      * apply lookup_lt_Some in Hy. by rewrite decide_True.
      * apply lookup_ge_None in Hy. rewrite decide_False by lia. done.
    + rewrite decide_False; [done|]. intros [? _]. congruence.
Qed.

(** [a[dst, 1:-1] = f(a[src, 1:-1])] *)
Lemma cell_set_row_from_row n a (dst src : Z) (f : A → A) a' :
  shape n a → set_row_from_row n dst src f a = inr a' →
  ∃ d' s', index n dst = inr d' ∧ index n src = inr s' ∧ shape n a' ∧
    ∀ p q, cell a' p q =
           if decide (p = d') then
             if in_slice n q then f <$> cell a s' q else cell a p q
           else cell a p q.
Proof.
  intros Ha. unfold set_row_from_row.
  intros (s' & Hs & (d' & Hd & E)%bind_inr)%bind_inr. simplify_eq.
  exists d', s'. split_and!; [done|done| |].
  - apply shape_alter; [|done]. intros r. by rewrite length_imap.
  - intros p q. rewrite cell_alter. case_decide; [|done]. subst p.
    destruct (lookup_lt_is_Some_2 a s') as [rs Hrs].
    { apply index_lt in Hs. destruct Ha. lia. }
    unfold cell. rewrite Hrs. simpl.
    destruct (a !! d') as [r|] eqn:Hr; simpl.
    2:{ apply lookup_ge_None in Hr. apply index_lt in Hd. destruct Ha. lia. }
    rewrite list_lookup_imap.
    destruct (in_slice n q) eqn:Hq; [|by destruct (r !! q)].
    apply in_slice_true in Hq.
    destruct (lookup_lt_is_Some_2 r q) as [x Hx].
    { rewrite (shape_row n a d' r) by done. lia. }
    destruct (lookup_lt_is_Some_2 rs q) as [y Hy].
    { rewrite (shape_row n a s' rs) by done. lia. }
    by rewrite Hx, Hy.
Qed.

(** [a[1:-1, dst] = f(a[1:-1, src])] *)
Lemma cell_set_col_from_col n a (dst src : Z) (f : A → A) a' :
  shape n a → set_col_from_col n dst src f a = inr a' →
  ∃ d' s', index n dst = inr d' ∧ index n src = inr s' ∧ shape n a' ∧
    ∀ p q, cell a' p q =
           if decide (q = d') then
             if in_slice n p then f <$> cell a p s' else cell a p q
           else cell a p q.
Proof.
  intros Ha. unfold set_col_from_col.
  intros (s' & Hs & (d' & Hd & E)%bind_inr)%bind_inr. simplify_eq.
  exists d', s'. split_and!; [done|done| |].
  - apply shape_imap; [|done]. intros k r.
    destruct (in_slice n k), (r !! s'); by rewrite ?length_insert.
  - intros p q. unfold cell. rewrite list_lookup_imap.
    destruct (a !! p) as [r|] eqn:Hr; simpl.
    2:{ case_decide; [|done]. by destruct (in_slice n p). }
    destruct (in_slice n p) eqn:Hp; [|by case_decide].
    destruct (lookup_lt_is_Some_2 r s') as [x Hx].
    { rewrite (shape_row n a p r) by done. apply index_lt in Hs. lia. }
    rewrite Hx. simpl. rewrite list_lookup_insert.
    destruct (decide (q = d')) as [->|Hq].
    + rewrite decide_True; [done|]. split; [done|].
      rewrite (shape_row n a p r) by done. apply index_lt in Hd. lia.
    + rewrite decide_False; [done|]. intros [? _]. congruence.
Qed.
End arrays.

(** ** Stamping the Dirichlet edges *)

Section stamping.
Context {A : Type}.
Implicit Types (a : list (list A)) (x : A) (n : Z).

Lemma stamps_row n (c : bool) (i : Z) (i' : nat) x :
  index n i = inr i' →
  stamps n (when c (set_row n i x)) (λ p q, c && bool_decide (p = i')) x.
Proof.
  intros Hi a Ha. unfold when. destruct c; simpl.
  - destruct (set_row n i x a) as [e|a'] eqn:E.
    { unfold set_row in E. by rewrite Hi in E. }
    destruct (cell_set_row n a i x a' Ha E) as (k & Hk & Ha' & Hcell).
    rewrite Hi in Hk. simplify_eq. exists a'. split_and!; [done|done|].
    intros p q. rewrite Hcell. by repeat case_bool_decide; case_decide.
  - by exists a.
Qed.

Lemma stamps_col n (c : bool) (j : Z) (j' : nat) x :
  index n j = inr j' →
  stamps n (when c (set_col n j x)) (λ p q, c && bool_decide (q = j')) x.
Proof.
  intros Hj a Ha. unfold when. destruct c; simpl.
  - destruct (set_col n j x a) as [e|a'] eqn:E.
    { unfold set_col in E. by rewrite Hj in E. }
    destruct (cell_set_col n a j x a' Ha E) as (k & Hk & Ha' & Hcell).
    rewrite Hj in Hk. simplify_eq. exists a'. split_and!; [done|done|].
    intros p q. rewrite Hcell. by repeat case_bool_decide; case_decide.
  - by exists a.
Qed.

(** The four stamping statements on an array with at least one row: none
    raises, inside or outside a [try], and the last writer wins. *)
Lemma stamp_edges n bc (vt vb vl vr : A) a :
  1 ≤ n → shape n a →
  let stmts :=
    [ when (is_dirichlet (top bc)) (set_row n 0 vt);
      when (is_dirichlet (bottom bc)) (set_row n (-1) vb);
      when (is_dirichlet (left bc)) (set_col n 0 vl);
      when (is_dirichlet (right bc)) (set_col n (-1) vr) ] in
  ∃ a', block stmts a = inr a' ∧ try_block stmts a = a' ∧ shape n a' ∧
    ∀ p q, cell a' p q = stamped n bc vt vb vl vr p q <$> cell a p q.
Proof.
  intros Hn Ha stmts. subst stmts.
  destruct (stamps_row n (is_dirichlet (top bc)) 0 0%nat vt) with (a := a)
    as (a1 & E1 & Ha1 & C1); [by rewrite index_nonneg by lia|done|].
  destruct (stamps_row n (is_dirichlet (bottom bc)) (-1) (Z.to_nat (n - 1)) vb)
    with (a := a1) as (a2 & E2 & Ha2 & C2); [by apply index_last|done|].
  destruct (stamps_col n (is_dirichlet (left bc)) 0 0%nat vl) with (a := a2)
    as (a3 & E3 & Ha3 & C3); [by rewrite index_nonneg by lia|done|].
  destruct (stamps_col n (is_dirichlet (right bc)) (-1) (Z.to_nat (n - 1)) vr)
    with (a := a3) as (a4 & E4 & Ha4 & C4); [by apply index_last|done|].
  exists a4. simpl. rewrite E1. simpl. rewrite E2. simpl. rewrite E3. simpl.
  rewrite E4. simpl. split_and!; [done|done|done|].
  intros p q. rewrite C4, C3, C2, C1. unfold stamped, on_right, on_left, on_bottom, on_top.
  destruct (cell a p q); simpl; repeat (case_match; simpl; try done).
Qed.
End stamping.

Lemma np_zeros_inr {A : Type} (zero : A) (n : Z) :
  0 ≤ n → np_zeros zero n = inr (replicate (Z.to_nat n) (replicate (Z.to_nat n) zero)).
Proof. intros. unfold np_zeros. by rewrite decide_False by lia. Qed.

(** The boundary mask marks exactly the cells of the Dirichlet edges. *)
Lemma make_mask_spec (n : Z) (bc : BoundaryConditions) :
  1 ≤ n →
  ∃ boundary_mask, make_mask n bc = inr boundary_mask ∧ shape n boundary_mask ∧
    ∀ p q, Z.of_nat p < n → Z.of_nat q < n →
      cell boundary_mask p q = Some (dirichlet_cell n bc p q).
Proof.
  intros Hn. unfold make_mask. rewrite np_zeros_inr by lia. cbn [bind].
  destruct (stamp_edges n bc true true true true
              (replicate (Z.to_nat n) (replicate (Z.to_nat n) false)))
    as (m & E & _ & Hm & Hcell); [done|apply shape_replicate; lia|].
  exists m. split_and!; [done|done|].
  intros p q Hp Hq. rewrite Hcell, cell_replicate, decide_True by lia. simpl.
  f_equal. unfold stamped, dirichlet_cell.
  repeat (case_match; simpl; try done); repeat match goal with
    | H : _ && _ = _ |- _ => rewrite H in *
    end; simpl in *; try done;
  destruct (is_dirichlet (top bc)), (is_dirichlet (bottom bc)),
    (is_dirichlet (left bc)), (is_dirichlet (right bc)),
    (on_top p q), (on_bottom n p q), (on_left p q), (on_right n p q);
  simpl in *; congruence.
Qed.

(** The initial grid: zero except on the Dirichlet edges. *)
Lemma initial_grid_spec (n : Z) (bc : BoundaryConditions) :
  1 ≤ n →
  ∃ u0, initial_grid n bc = inr u0 ∧ shape n u0 ∧
    ∀ p q, Z.of_nat p < n → Z.of_nat q < n →
      cell u0 p q =
      Some (stamped n bc (value (top bc)) (value (bottom bc))
              (value (left bc)) (value (right bc)) p q 0%float).
Proof.
  intros Hn. unfold initial_grid, apply_initial. rewrite np_zeros_inr by lia. cbn [bind].
  destruct (stamp_edges n bc (value (top bc)) (value (bottom bc))
              (value (left bc)) (value (right bc))
              (replicate (Z.to_nat n) (replicate (Z.to_nat n) 0%float)))
    as (u0 & _ & E & Hu0 & Hcell); [done|apply shape_replicate; lia|].
  exists u0. split_and!; [by rewrite E|done|].
  intros p q Hp Hq. by rewrite Hcell, cell_replicate, decide_True by lia.
Qed.

(** ** The Jacobi loops *)

Lemma getitem_value_at (n : Z) (a : Grid) (i j : Z) :
  shape n a → 0 ≤ i < n → 0 ≤ j < n →
  getitem n a i j = inr (value_at a (Z.to_nat i) (Z.to_nat j)).
Proof.
  intros Ha Hi Hj. apply getitem_cell; [done..|]. unfold value_at.
  destruct (shape_cell n a (Z.to_nat i) (Z.to_nat j)) as [x Hx]; [done|lia|lia|].
  by rewrite Hx.
Qed.

Lemma jacobi_cell_spec (n : Z) (a : Grid) (boundary_mask : list (list bool))
    (i j : Z) (w : Grid) :
  shape n a → shape n boundary_mask → shape n w →
  1 ≤ i < n - 1 → 1 ≤ j < n - 1 →
  ∃ w', jacobi_cell n a boundary_mask i j w = inr w' ∧ shape n w' ∧
    ∀ p q, cell w' p q =
           if decide (p = Z.to_nat i ∧ q = Z.to_nat j ∧ cell boundary_mask p q = Some false)
           then Some (mean_at a p q) else cell w p q.
Proof.
  intros Ha Hm Hw Hi Hj. unfold jacobi_cell.
  destruct (getitem_total n boundary_mask i j) as [m Em]; [done|lia|lia|].
  rewrite Em. cbn [bind]. apply getitem_cell in Em; [|done|lia|lia].
  destruct m; cbn [negb].
  - exists w. split_and!; [done|done|]. intros p q.
    case_decide as H; [|done]. destruct H as (-> & -> & H). congruence.
  - rewrite !getitem_value_at by (done || lia). cbn [bind].
    destruct (setitem n i j
      (mean4 (value_at a (Z.to_nat (i + 1)) (Z.to_nat j))
             (value_at a (Z.to_nat (i - 1)) (Z.to_nat j))
             (value_at a (Z.to_nat i) (Z.to_nat (j + 1)))
             (value_at a (Z.to_nat i) (Z.to_nat (j - 1)))) w) as [e|w'] eqn:E.
    { unfold setitem in E. rewrite !index_nonneg in E by lia. done. }
    destruct (cell_setitem n w i j _ w' Hw E) as (i' & j' & Hi' & Hj' & Hw' & Hset & Hframe).
    rewrite index_nonneg in Hi', Hj' by lia. simplify_eq.
    exists w'. split_and!; [done|done|]. intros p q.
    case_decide as H.
    + destruct H as (-> & -> & _). rewrite Hset. unfold mean_at.
      do 2 f_equal; f_equal; try f_equal; try f_equal; lia.
    + apply Hframe. intros ?; simplify_eq. by destruct H.
Qed.

Lemma jacobi_row_spec (n : Z) (a : Grid) (boundary_mask : list (list bool))
    (i : Z) (js : list Z) (w : Grid) :
  shape n a → shape n boundary_mask → shape n w →
  1 ≤ i < n - 1 → (∀ j, j ∈ js → 1 ≤ j < n - 1) →
  ∃ w', for_each js (jacobi_cell n a boundary_mask i) w = inr w' ∧ shape n w' ∧
    ∀ p q, cell w' p q =
           if decide (p = Z.to_nat i ∧ Z.of_nat q ∈ js ∧ cell boundary_mask p q = Some false)
           then Some (mean_at a p q) else cell w p q.
Proof.
  intros Ha Hm Hw Hi. revert w Hw.
  induction js as [|j js IH]; intros w Hw Hjs; simpl.
  - exists w. split_and!; [done|done|]. intros p q.
    case_decide as H; [|done]. destruct H as (_ & H & _). by apply elem_of_nil in H.
  - destruct (jacobi_cell_spec n a boundary_mask i j w) as (w1 & E1 & Hw1 & C1);
      [done..|apply Hjs; by left|].
    rewrite E1. cbn [bind].
    destruct (IH w1 Hw1) as (w' & E & Hw' & C); [intros; apply Hjs; by right|].
    exists w'. split_and!; [done|done|]. intros p q. rewrite C, C1.
    assert (0 ≤ j) by (specialize (Hjs j ltac:(left)); lia).
    destruct (decide (p = Z.to_nat i ∧ Z.of_nat q ∈ j :: js ∧
                      cell boundary_mask p q = Some false)) as [(Hp & Hq & HM)|Hn].
    + apply elem_of_cons in Hq as [Hq|Hq].
      * case_decide; [done|]. rewrite decide_True; [done|]. split_and!; [done|lia|done].
      * by rewrite decide_True.
    + rewrite !decide_False; [done| |].
      * intros (? & ? & ?). apply Hn. split_and!; [done| |done].
        apply elem_of_cons. left. lia.
      * intros (? & ? & ?). apply Hn. split_and!; [done| |done].
        apply elem_of_cons. by right.
Qed.

Lemma jacobi_rows_spec (n : Z) (a : Grid) (boundary_mask : list (list bool))
    (rows : list Z) (w : Grid) :
  shape n a → shape n boundary_mask → shape n w →
  (∀ i, i ∈ rows → 1 ≤ i < n - 1) →
  ∃ w', for_each rows
          (λ i, for_each (range 1 (n - 1)) (jacobi_cell n a boundary_mask i)) w = inr w' ∧
    shape n w' ∧
    ∀ p q, cell w' p q =
           if decide (Z.of_nat p ∈ rows ∧ in_slice n q = true ∧
                      cell boundary_mask p q = Some false)
           then Some (mean_at a p q) else cell w p q.
Proof.
  intros Ha Hm. revert w.
  induction rows as [|i rows IH]; intros w Hw Hrows; cbn [for_each].
  - exists w. split_and!; [done|done|]. intros p q.
    case_decide as H; [|done]. destruct H as (H & _). by apply elem_of_nil in H.
  - destruct (jacobi_row_spec n a boundary_mask i (range 1 (n - 1)) w)
      as (w1 & E1 & Hw1 & C1); [done..|apply Hrows; by left| |].
    { intros j. by rewrite elem_of_range. }
    rewrite E1. cbn [bind].
    destruct (IH w1 Hw1) as (w' & E & Hw' & C); [intros; apply Hrows; by right|].
    exists w'. split_and!; [done|done|]. intros p q. rewrite C, C1.
    assert (0 ≤ i) by (specialize (Hrows i ltac:(left)); lia).
    destruct (decide (Z.of_nat p ∈ i :: rows ∧ in_slice n q = true ∧
                      cell boundary_mask p q = Some false)) as [(Hp & Hq & HM)|Hn].
    + apply elem_of_cons in Hp as [Hp|Hp].
      * case_decide; [done|]. rewrite decide_True; [done|].
        apply in_slice_true in Hq. split_and!; [lia| |done].
        apply elem_of_range. lia.
      * by rewrite decide_True.
    + rewrite !decide_False; [done| |].
      * intros (? & Hq%elem_of_range & ?). apply Hn. split_and!; [|by apply in_slice_true|done].
        apply elem_of_cons. left. lia.
      * intros (? & ? & ?). apply Hn. split_and!; [|done|done].
        apply elem_of_cons. by right.
Qed.

(** The two nested loops: every cell of the interior that the mask does
    not mark gets the mean of its neighbours in [a]; every other cell of
    [w] is left as it is. *)
Lemma jacobi_spec (n : Z) (a : Grid) (boundary_mask : list (list bool)) (w : Grid) :
  shape n a → shape n boundary_mask → shape n w →
  ∃ w', jacobi n a boundary_mask w = inr w' ∧ shape n w' ∧
    ∀ p q, cell w' p q =
           if decide (in_slice n p = true ∧ in_slice n q = true ∧
                      cell boundary_mask p q = Some false)
           then Some (mean_at a p q) else cell w p q.
Proof.
  intros Ha Hm Hw. unfold jacobi.
  destruct (jacobi_rows_spec n a boundary_mask (range 1 (n - 1)) w)
    as (w' & E & Hw' & C); [done..| |].
  { intros i. by rewrite elem_of_range. }
  exists w'. split_and!; [done|done|]. intros p q. rewrite C.
  apply decide_ext. rewrite elem_of_range, !in_slice_true. tauto.
Qed.

(** ** The Neumann edge updates *)

Lemma when_set_row_from_row (n : Z) (c : bool) (dst src : Z) (d' s' : nat)
    (f : float → float) (a : Grid) :
  index n dst = inr d' → index n src = inr s' → shape n a →
  ∃ a', when c (set_row_from_row n dst src f) a = inr a' ∧ shape n a' ∧
    ∀ p q, cell a' p q =
           if c && bool_decide (p = d') && in_slice n q
           then f <$> cell a s' q else cell a p q.
Proof.
  intros Hd Hs Ha. unfold when. destruct c; simpl; [|by exists a].
  destruct (set_row_from_row n dst src f a) as [e|a'] eqn:E.
  { unfold set_row_from_row in E. by rewrite Hd, Hs in E. }
  destruct (cell_set_row_from_row n a dst src f a' Ha E)
    as (d & s & Hd' & Hs' & Ha' & C).
  rewrite Hd in Hd'. rewrite Hs in Hs'. simplify_eq.
  exists a'. split_and!; [done|done|]. intros p q. rewrite C.
  case_decide; case_bool_decide; simpl; congruence.
Qed.

Lemma when_set_col_from_col (n : Z) (c : bool) (dst src : Z) (d' s' : nat)
    (f : float → float) (a : Grid) :
  index n dst = inr d' → index n src = inr s' → shape n a →
  ∃ a', when c (set_col_from_col n dst src f) a = inr a' ∧ shape n a' ∧
    ∀ p q, cell a' p q =
           if c && bool_decide (q = d') && in_slice n p
           then f <$> cell a p s' else cell a p q.
Proof.
  intros Hd Hs Ha. unfold when. destruct c; simpl; [|by exists a].
  destruct (set_col_from_col n dst src f a) as [e|a'] eqn:E.
  { unfold set_col_from_col in E. by rewrite Hd, Hs in E. }
  destruct (cell_set_col_from_col n a dst src f a' Ha E)
    as (d & s & Hd' & Hs' & Ha' & C).
  rewrite Hd in Hd'. rewrite Hs in Hs'. simplify_eq.
  exists a'. split_and!; [done|done|]. intros p q. rewrite C.
  case_decide; case_bool_decide; simpl; congruence.
Qed.

(** No Neumann statement writes a cell of the interior. *)
Lemma interior_not_updated (n : Z) (bc : BoundaryConditions) (p q : nat) :
  in_slice n p = true → in_slice n q = true →
  top_update n bc p q = false ∧ bottom_update n bc p q = false ∧
  left_update n bc p q = false ∧ right_update n bc p q = false.
Proof.
  intros Hp%in_slice_true Hq%in_slice_true.
  unfold top_update, bottom_update, left_update, right_update.
  rewrite !(bool_decide_eq_false_2 (_ = _)) by lia.
  by rewrite !andb_false_r.
Qed.

(** The four Neumann statements on a grid with an interior: none raises,
    each edge cell between the corners of a Neumann edge gets the value of
    its interior neighbour plus or minus the edge's value, and no other
    cell changes. *)
Lemma apply_neumann_spec (n : Z) (bc : BoundaryConditions) (a : Grid) :
  3 ≤ n → shape n a →
  shape n (apply_neumann n bc a) ∧
  ∀ p q, cell (apply_neumann n bc a) p q =
    if right_update n bc p q then
      (λ x, PrimFloat.sub x (value (right bc))) <$> cell a p (Z.to_nat (n - 2))
    else if left_update n bc p q then
      (λ x, PrimFloat.add x (value (left bc))) <$> cell a p 1
    else if bottom_update n bc p q then
      (λ x, PrimFloat.sub x (value (bottom bc))) <$> cell a (Z.to_nat (n - 2)) q
    else if top_update n bc p q then
      (λ x, PrimFloat.add x (value (top bc))) <$> cell a 1 q
    else cell a p q.
Proof.
  intros Hn Ha. unfold apply_neumann.
  destruct (when_set_row_from_row n (is_neumann (top bc)) 0 1 0 1
              (λ x, PrimFloat.add x (value (top bc))) a)
    as (a1 & E1 & Ha1 & C1); [by rewrite index_nonneg by lia..|done|].
  destruct (when_set_row_from_row n (is_neumann (bottom bc)) (-1) (-2)
              (Z.to_nat (n - 1)) (Z.to_nat (n - 2))
              (λ x, PrimFloat.sub x (value (bottom bc))) a1)
    as (a2 & E2 & Ha2 & C2);
    [by apply index_last; lia|by apply index_before_last; lia|done|].
  destruct (when_set_col_from_col n (is_neumann (left bc)) 0 1 0 1
              (λ x, PrimFloat.add x (value (left bc))) a2)
    as (a3 & E3 & Ha3 & C3); [by rewrite index_nonneg by lia..|done|].
  destruct (when_set_col_from_col n (is_neumann (right bc)) (-1) (-2)
              (Z.to_nat (n - 1)) (Z.to_nat (n - 2))
              (λ x, PrimFloat.sub x (value (right bc))) a3)
    as (a4 & E4 & Ha4 & C4);
    [by apply index_last; lia|by apply index_before_last; lia|done|].
  cbn [try_block]. rewrite E1, E2, E3, E4. split; [done|].
  (* the cells the updates read are interior cells, which no update writes *)
  assert (in_slice n 1 = true) as I1 by (apply in_slice_true; lia).
  assert (in_slice n (Z.to_nat (n - 2)) = true) as I2 by (apply in_slice_true; lia).
  assert (∀ p q, in_slice n p = true → in_slice n q = true →
            cell a3 p q = cell a p q) as Hint.
  { intros p q Hp Hq.
    destruct (interior_not_updated n bc p q Hp Hq) as (T & B & L & _).
    fold (top_update n bc p q) in *.
    rewrite C3. fold (left_update n bc p q). rewrite L.
    rewrite C2. fold (bottom_update n bc p q). rewrite B.
    rewrite C1. fold (top_update n bc p q). by rewrite T. }
  intros p q.
  rewrite C4. fold (right_update n bc p q).
  destruct (right_update n bc p q) eqn:R.
  { apply andb_true_iff in R as [_ Hp]. by rewrite Hint. }
  rewrite C3. fold (left_update n bc p q).
  destruct (left_update n bc p q) eqn:L.
  { apply andb_true_iff in L as [_ Hp].
    destruct (interior_not_updated n bc p 1 Hp I1) as (T & B & _).
    rewrite C2. fold (bottom_update n bc p 1). rewrite B.
    rewrite C1. fold (top_update n bc p 1). by rewrite T. }
  rewrite C2. fold (bottom_update n bc p q).
  destruct (bottom_update n bc p q) eqn:B.
  { apply andb_true_iff in B as [_ Hq].
    destruct (interior_not_updated n bc (Z.to_nat (n - 2)) q I2 Hq) as (T & _).
    rewrite C1. fold (top_update n bc (Z.to_nat (n - 2)) q). by rewrite T. }
  rewrite C1. by fold (top_update n bc p q).
Qed.


Lemma neumann_not_dirichlet (e : BoundaryEdge) :
  is_neumann e = true → is_dirichlet e = false.
Proof.
  unfold is_dirichlet, is_neumann. intros H%bool_decide_eq_true.
  apply bool_decide_eq_false. congruence.
Qed.

(** The Neumann statements never write a cell of a Dirichlet edge. *)
Lemma dirichlet_not_updated (n : Z) (bc : BoundaryConditions) (p q : nat) :
  dirichlet_cell n bc p q = true → neumann_cell n bc p q = false.
Proof.
  intros HD. destruct (neumann_cell n bc p q) eqn:HN; [exfalso|done].
  revert HD. apply not_true_iff_false.
  unfold neumann_cell, top_update, bottom_update, left_update, right_update in HN.
  unfold dirichlet_cell, on_top, on_bottom, on_left, on_right.
  repeat apply orb_true_iff in HN as [HN|HN];
    repeat apply andb_true_iff in HN as [HN ?];
    repeat match goal with
      | H : bool_decide _ = true |- _ => apply bool_decide_eq_true in H
      | H : in_slice _ _ = true |- _ => apply in_slice_true in H
      end;
    rewrite (neumann_not_dirichlet _ HN);
    repeat case_bool_decide; try lia;
    by rewrite ?andb_false_r, ?andb_false_l.
Qed.

Lemma dirichlet_not_interior (n : Z) (bc : BoundaryConditions) (p q : nat) :
  in_slice n p = true → in_slice n q = true → dirichlet_cell n bc p q = false.
Proof.
  intros Hp%in_slice_true Hq%in_slice_true.
  unfold dirichlet_cell, on_top, on_bottom, on_left, on_right.
  rewrite !(bool_decide_eq_false_2 (_ = _)) by lia.
  by rewrite !andb_false_r.
Qed.

(** On a grid of any size the Neumann block keeps the shape and changes
    no cell outside the four update regions, whether or not one of its
    statements raises. *)
Lemma apply_neumann_frame (n : Z) (bc : BoundaryConditions) (a : Grid) :
  shape n a →
  shape n (apply_neumann n bc a) ∧
  ∀ p q, neumann_cell n bc p q = false → cell (apply_neumann n bc a) p q = cell a p q.
Proof.
  intros Ha. unfold apply_neumann.
  apply (try_block_preserves
           (λ a', shape n a' ∧
                  ∀ p q, neumann_cell n bc p q = false → cell a' p q = cell a p q));
    [|by split].
  repeat first [apply List.Forall_cons | apply List.Forall_nil];
    apply when_preserves; intros Hc a0 a1 [Ha0 Hframe] E.
  - destruct (cell_set_row_from_row n a0 _ _ _ a1 Ha0 E) as (d & s & Hd & _ & Ha1 & C).
    split; [done|]. intros p q Hpq. rewrite C, <- Hframe by done.
    case_decide as Hp; [|done]. destruct (in_slice n q) eqn:Hq; [|done].
    apply index_inr in Hd as [[_ ->]|[? _]]; [|lia].
    unfold neumann_cell, top_update in Hpq.
    rewrite Hc, Hq, bool_decide_eq_true_2 in Hpq by done. done.
  - destruct (cell_set_row_from_row n a0 _ _ _ a1 Ha0 E) as (d & s & Hd & _ & Ha1 & C).
    split; [done|]. intros p q Hpq. rewrite C, <- Hframe by done.
    case_decide as Hp; [|done]. destruct (in_slice n q) eqn:Hq; [|done].
    apply index_inr in Hd as [[? _]|[_ ->]]; [lia|].
    unfold neumann_cell, bottom_update in Hpq.
    rewrite Hc, Hq, bool_decide_eq_true_2 in Hpq by (f_equal; lia).
    by rewrite orb_true_r in Hpq.
  - destruct (cell_set_col_from_col n a0 _ _ _ a1 Ha0 E) as (d & s & Hd & _ & Ha1 & C).
    split; [done|]. intros p q Hpq. rewrite C, <- Hframe by done.
    case_decide as Hq; [|done]. destruct (in_slice n p) eqn:Hp; [|done].
    apply index_inr in Hd as [[_ ->]|[? _]]; [|lia].
    unfold neumann_cell, left_update in Hpq.
    rewrite Hc, Hp, bool_decide_eq_true_2 in Hpq by done.
    by rewrite orb_true_r in Hpq.
  - destruct (cell_set_col_from_col n a0 _ _ _ a1 Ha0 E) as (d & s & Hd & _ & Ha1 & C).
    split; [done|]. intros p q Hpq. rewrite C, <- Hframe by done.
    case_decide as Hq; [|done]. destruct (in_slice n p) eqn:Hp; [|done].
    apply index_inr in Hd as [[? _]|[_ ->]]; [lia|].
    unfold neumann_cell, right_update in Hpq.
    rewrite Hc, Hp, bool_decide_eq_true_2 in Hpq by (f_equal; lia).
    by rewrite orb_true_r in Hpq.
Qed.

(** ** One sweep *)

Lemma np_max_total (n : Z) (a b : Grid) :
  1 ≤ n → shape n a → shape n b → ∃ max_change, np_max (abs_diff a b) = inr max_change.
Proof.
  intros Hn [La Ra] [Lb Rb].
  destruct a as [|ra a]; [simpl in La; lia|].
  destruct b as [|rb b]; [simpl in Lb; lia|].
  specialize (Ra ra ltac:(apply elem_of_cons; by left)).
  specialize (Rb rb ltac:(apply elem_of_cons; by left)).
  destruct ra as [|x ra]; [simpl in Ra; lia|].
  destruct rb as [|y rb]; [simpl in Rb; lia|].
  unfold np_max, abs_diff. simpl. eauto.
Qed.

Lemma update_regions_disjoint (n : Z) (bc : BoundaryConditions) (p q : nat) :
  (top_update n bc p q = true →
     bottom_update n bc p q = false ∧ left_update n bc p q = false ∧
     right_update n bc p q = false) ∧
  (bottom_update n bc p q = true →
     left_update n bc p q = false ∧ right_update n bc p q = false) ∧
  (left_update n bc p q = true → right_update n bc p q = false).
Proof.
  unfold top_update, bottom_update, left_update, right_update, in_slice.
  split_and!; intros H;
    repeat apply andb_true_iff in H as [H ?];
    repeat match goal with
      | H : bool_decide _ = true |- _ => apply bool_decide_eq_true in H
      end;
    split_and?; repeat case_bool_decide; try lia;
    by rewrite ?andb_false_r, ?andb_false_l.
Qed.

Lemma sweep_spec (n : Z) (bc : BoundaryConditions) (boundary_mask : list (list bool))
    (a : Grid) :
  boundary_mask_of n bc boundary_mask → shape n a →
  ∃ a', sweep n bc boundary_mask a = inr a' ∧ shape n a' ∧
    (∀ p q, in_slice n p = true → in_slice n q = true →
       cell a' p q = Some (mean_at a p q)) ∧
    (∀ p q, (in_slice n p = false ∨ in_slice n q = false) →
       neumann_cell n bc p q = false → cell a' p q = cell a p q) ∧
    (∀ p q, top_update n bc p q = true →
       cell a' p q = (λ x, PrimFloat.add x (value (top bc))) <$> cell a' 1 q) ∧
    (∀ p q, bottom_update n bc p q = true →
       cell a' p q =
       (λ x, PrimFloat.sub x (value (bottom bc))) <$> cell a' (Z.to_nat (n - 2)) q) ∧
    (∀ p q, left_update n bc p q = true →
       cell a' p q = (λ x, PrimFloat.add x (value (left bc))) <$> cell a' p 1) ∧
    (∀ p q, right_update n bc p q = true →
       cell a' p q =
       (λ x, PrimFloat.sub x (value (right bc))) <$> cell a' p (Z.to_nat (n - 2))).
Proof.
  intros [Hm Hmask] Ha. unfold sweep.
  destruct (jacobi_spec n a boundary_mask a) as (w & E & Hw & C); [done..|].
  rewrite E. cbn [bind].
  destruct (apply_neumann_frame n bc w Hw) as [Ha' Hframe].
  eexists. split; [done|]. split; [done|].
  assert (∀ p q, in_slice n p = true → in_slice n q = true →
            cell (apply_neumann n bc w) p q = cell w p q) as Hinterior.
  { intros p q Hp Hq. apply Hframe. unfold neumann_cell.
    destruct (interior_not_updated n bc p q Hp Hq) as (-> & -> & -> & ->). done. }
  assert (∀ p q, top_update n bc p q = true ∨ bottom_update n bc p q = true ∨
                 left_update n bc p q = true ∨ right_update n bc p q = true →
            3 ≤ n ∧ in_slice n 1 = true ∧ in_slice n (Z.to_nat (n - 2)) = true) as Hn.
  { unfold top_update, bottom_update, left_update, right_update.
    intros p q H. rewrite !in_slice_true.
    destruct H as [H|[H|[H|H]]];
      apply andb_true_iff in H as [_ H%in_slice_true]; lia. }
  split_and!.
  - intros p q Hp Hq. rewrite Hinterior, C by done.
    rewrite decide_True; [done|]. split_and!; [done|done|].
    apply in_slice_true in Hp, Hq.
    rewrite Hmask by lia. by rewrite dirichlet_not_interior by by apply in_slice_true.
  - intros p q Hpq HN. rewrite Hframe, C by done.
    rewrite decide_False; [done|]. intros (? & ? & _). destruct Hpq; congruence.
  - intros p q H. destruct (Hn p q) as (? & I1 & I2); [by auto|].
    destruct (apply_neumann_spec n bc w) as [_ CN]; [done..|].
    destruct (update_regions_disjoint n bc p q) as (D & _).
    destruct (D H) as (B & L & R).
    rewrite CN, R, L, B, H.
    apply andb_true_iff in H as [_ Hq]. by rewrite Hinterior.
  - intros p q H. destruct (Hn p q) as (? & I1 & I2); [by auto|].
    destruct (apply_neumann_spec n bc w) as [_ CN]; [done..|].
    destruct (update_regions_disjoint n bc p q) as (_ & D & _).
    destruct (D H) as (L & R).
    rewrite CN, R, L, H.
    apply andb_true_iff in H as [_ Hq]. by rewrite Hinterior.
  - intros p q H. destruct (Hn p q) as (? & I1 & I2); [by auto|].
    destruct (apply_neumann_spec n bc w) as [_ CN]; [done..|].
    destruct (update_regions_disjoint n bc p q) as (_ & _ & D).
    rewrite CN, (D H), H.
    apply andb_true_iff in H as [_ Hp]. by rewrite Hinterior.
  - intros p q H. destruct (Hn p q) as (? & I1 & I2); [by auto 10|].
    destruct (apply_neumann_spec n bc w) as [_ CN]; [done..|].
    rewrite CN, H.
    apply andb_true_iff in H as [_ Hp]. by rewrite Hinterior.
Qed.

(** ** The loop *)

Lemma sweeps_S_inr (n : Z) (bc : BoundaryConditions) (boundary_mask : list (list bool))
    (k : nat) (a a1 a2 : Grid) :
  sweep n bc boundary_mask a = inr a1 →
  sweeps n bc boundary_mask k a1 = inr a2 →
  sweeps n bc boundary_mask (S k) a = inr a2.
Proof. intros E1 E2. simpl. by rewrite E1. Qed.

Section loop.
Variables (n : Z) (bc : BoundaryConditions) (boundary_mask : list (list bool)).
Variable tol : float.

(** [G] holds of every grid the loop reaches, [H] of every recorded change. *)
Variables (G : Grid → Prop) (H : float → Prop).
Hypothesis step_ok : ∀ a, G a →
  ∃ a' max_change,
    sweep n bc boundary_mask a = inr a' ∧
    np_max (abs_diff a' a) = inr max_change ∧ G a' ∧ H max_change.

Lemma sweeps_invariant (k : nat) (a : Grid) :
  G a → ∃ a', sweeps n bc boundary_mask k a = inr a' ∧ G a'.
Proof.
  revert a. induction k as [|k IH]; intros a Ha; simpl; [by eauto|].
  destruct (step_ok a Ha) as (a1 & mc & E & _ & Ha1 & _).
  rewrite E. cbn [bind]. by apply IH.
Qed.

(** The loop over [m] iterations starting at index [k], from a state in
    which convergence has not been declared. *)
Lemma iterate_spec (m : nat) (k : Z) (st : LoopState) :
  G (u st) → converged st = false →
  ∃ r hist,
    iterate n bc boundary_mask tol (seqZ k (Z.of_nat m)) st = inr r ∧
    G (u r) ∧
    sweeps n bc boundary_mask (length hist) (u st) = inr (u r) ∧
    convergence_history r = convergence_history st ++ hist ∧
    Forall H hist ∧
    (length hist ≤ m)%nat ∧
    (∀ idx max_change, hist !! idx = Some max_change →
       convergence_test max_change tol (k + Z.of_nat idx) = true ↔
       converged r = true ∧ S idx = length hist) ∧
    (if converged r
     then final_iteration r = Some (k + Z.of_nat (length hist)) ∧ (1 ≤ length hist)%nat
     else final_iteration r = final_iteration st ∧ length hist = m).
Proof.
  revert k st. induction m as [|m IH]; intros k st HG Hc.
  - exists st, []. rewrite seqZ_nil by lia. cbn [iterate length sweeps].
    rewrite app_nil_r, Hc. split_and!; try done; try lia.
  - rewrite seqZ_cons by lia. cbn [iterate].
    destruct (step_ok (u st) HG) as (a' & mc & Es & Em & HG' & HH).
    unfold iteration_body. rewrite Es. cbn [bind]. rewrite Em. cbn [bind].
    destruct (convergence_test mc tol k) eqn:Etest; cbn [bind converged].
    + exists {| u := a'; converged := true; final_iteration := Some (k + 1);
                convergence_history := convergence_history st ++ [mc] |}, [mc].
      cbn [u converged final_iteration convergence_history length].
      split; [done|]. split; [done|].
      split; [by apply (sweeps_S_inr _ _ _ 0 _ a')|].
      split; [done|]. split; [by apply Forall_singleton|]. split; [lia|].
      split; [|done].
      intros [|idx] x Hx; simplify_eq/=.
      rewrite Z.add_0_r, Etest. done.
    + rewrite Hc.
      replace (Z.pred (Z.of_nat (S m))) with (Z.of_nat m) by lia.
      destruct (IH (Z.succ k)
                  {| u := a'; converged := false;
                     final_iteration := final_iteration st;
                     convergence_history := convergence_history st ++ [mc] |})
        as (r & hist & Er & HGr & Esw & Hhist & HHr & Hlen & Htest & Hfin); [done..|].
      cbn [u converged final_iteration convergence_history] in *.
      exists r, (mc :: hist). cbn [length].
      split; [done|]. split; [done|].
      split; [by apply (sweeps_S_inr _ _ _ _ _ a')|].
      split; [by rewrite Hhist, <- app_assoc|].
      split; [by apply Forall_cons|]. split; [lia|].
      split.
      * intros [|idx] x Hx; simplify_eq/=.
        -- rewrite Z.add_0_r, Etest. split; [done|]. intros [Hr Hl].
           rewrite Hr in Hfin. lia.
        -- replace (k + Z.of_nat (S idx)) with (Z.succ k + Z.of_nat idx) by lia.
           rewrite (Htest idx x Hx).
           split; (intros [? ?]; split; [done|lia]).
      * destruct (converged r).
        -- destruct Hfin as [-> ?]. split; [|lia]. f_equal. lia.
        -- destruct Hfin as [-> ->]. done.
Qed.
End loop.

(** ** The solver as a whole *)

(** On a grid with at least one cell, a sweep and the reduction that
    follows it never raise. *)
Lemma step_total (n : Z) (bc : BoundaryConditions) (boundary_mask : list (list bool))
    (a : Grid) :
  1 ≤ n → boundary_mask_of n bc boundary_mask → shape n a →
  ∃ a' max_change,
    sweep n bc boundary_mask a = inr a' ∧
    np_max (abs_diff a' a) = inr max_change ∧ shape n a'.
Proof.
  intros Hn Hm Ha.
  destruct (sweep_spec n bc boundary_mask a Hm Ha) as (a' & E & Ha' & _).
  destruct (np_max_total n a' a Hn Ha' Ha) as [mc Hmc].
  by exists a', mc.
Qed.

(** What a run of the solver establishes, for any invariant [G] of the
    grid that the sweeps preserve and any property [H] of the changes they
    record. *)
Lemma solve_spec (c : Config) (G : Grid → Prop) (H : float → Prop) :
  let n := grid_size c in
  let bc := boundary_conditions c in
  1 ≤ n →
  (∀ u0 boundary_mask,
     initial_grid n bc = inr u0 → make_mask n bc = inr boundary_mask →
     G u0 ∧
     ∀ a, G a → ∃ a' max_change,
       sweep n bc boundary_mask a = inr a' ∧
       np_max (abs_diff a' a) = inr max_change ∧ G a' ∧ H max_change) →
  ∃ u0 boundary_mask r,
    initial_grid n bc = inr u0 ∧ make_mask n bc = inr boundary_mask ∧
    solve c = inr r ∧ G (u r) ∧
    sweeps n bc boundary_mask (length (convergence_history r)) u0 = inr (u r) ∧
    Forall H (convergence_history r) ∧
    (length (convergence_history r) ≤ Z.to_nat (max_iterations c))%nat ∧
    (∀ idx max_change, convergence_history r !! idx = Some max_change →
       convergence_test max_change (tolerance c) (Z.of_nat idx) = true ↔
       converged r = true ∧ S idx = length (convergence_history r)) ∧
    (if converged r
     then final_iteration r = Some (Z.of_nat (length (convergence_history r))) ∧
          (1 ≤ length (convergence_history r))%nat
     else final_iteration r = None ∧
          length (convergence_history r) = Z.to_nat (max_iterations c)).
Proof.
  intros n bc Hn Hinv.
  destruct (initial_grid_spec n bc Hn) as (u0 & E0 & _).
  destruct (make_mask_spec n bc Hn) as (mask & Em & _).
  destruct (Hinv u0 mask E0 Em) as [HG0 Hstep].
  destruct (iterate_spec n bc mask (tolerance c) G H Hstep
              (Z.to_nat (max_iterations c)) 0 (initial_state u0) HG0 eq_refl)
    as (r & hist & Er & HGr & Esw & Hhist & HH & Hlen & Htest & Hfin).
  cbn [initial_state u convergence_history final_iteration app] in *.
  exists u0, mask, r. rewrite Hhist.
  split; [done|]. split; [done|]. split.
  { unfold solve. fold n bc. rewrite E0. cbn [bind]. rewrite Em. cbn [bind].
    rewrite <- Er. unfold range, initial_state, seqZ.
    by rewrite Z.sub_0_r, Nat2Z.id. }
  split; [done|]. split; [done|]. split; [done|]. split; [done|]. split; [|done].
  intros idx mc Hidx. by rewrite <- (Htest idx mc Hidx).
Qed.

(** The grid and the mask the loop starts from. *)
Lemma setup_spec (n : Z) (bc : BoundaryConditions) (u0 : Grid)
    (boundary_mask : list (list bool)) :
  1 ≤ n → initial_grid n bc = inr u0 → make_mask n bc = inr boundary_mask →
  shape n u0 ∧ boundary_mask_of n bc boundary_mask ∧
  ∀ p q, Z.of_nat p < n → Z.of_nat q < n →
    cell u0 p q =
    Some (stamped n bc (value (top bc)) (value (bottom bc))
            (value (left bc)) (value (right bc)) p q 0%float).
Proof.
  intros Hn E0 Em.
  destruct (initial_grid_spec n bc Hn) as (u0' & E0' & Hu0 & Hcell).
  destruct (make_mask_spec n bc Hn) as (mask' & Em' & Hm & Hmask).
  rewrite E0 in E0'. rewrite Em in Em'. simplify_eq. by split_and!.
Qed.

(** With at least one cell, every edge type, every tolerance and every
    iteration cap, the solver returns. *)
Lemma solve_total (c : Config) :
  1 ≤ grid_size c → ∃ r, solve c = inr r ∧ shape (grid_size c) (u r).
Proof.
  intros Hn.
  destruct (solve_spec c (shape (grid_size c)) (λ _, True)) as (u0 & mask & r & H);
    [done| |].
  - intros u0 mask E0 Em.
    destruct (setup_spec _ _ u0 mask Hn E0 Em) as (Hu0 & Hm & _).
    split; [done|]. intros a Ha.
    destruct (step_total (grid_size c) (boundary_conditions c) mask a)
      as (a' & mc & ? & ? & ?); [done..|].
    by exists a', mc.
  - exists r. by destruct H as (_ & _ & ? & ? & _).
Qed.

(** ** Reading cells the way the program does *)

Lemma getitem_inv {A : Type} (n : Z) (a : list (list A)) (i j : Z) (x : A) :
  getitem n a i j = inr x →
  ∃ p q, index n i = inr p ∧ index n j = inr q ∧ cell a p q = Some x.
Proof.
  unfold getitem. intros (p & Hp & (q & Hq & E)%bind_inr)%bind_inr.
  exists p, q. destruct (cell a p q); by simplify_eq.
Qed.

Lemma getitem_index {A : Type} (n : Z) (a : list (list A)) (i j : Z) (p q : nat) (x : A) :
  index n i = inr p → index n j = inr q → cell a p q = Some x →
  getitem n a i j = inr x.
Proof. intros Hp Hq Hx. unfold getitem. rewrite Hp, Hq. cbn [bind]. by rewrite Hx. Qed.

Lemma getitem_cell_eq {A : Type} (n : Z) (a b : list (list A)) (i j : Z) (p q : nat) :
  index n i = inr p → index n j = inr q → cell a p q = cell b p q →
  getitem n a i j = getitem n b i j.
Proof. intros Hp Hq Hx. unfold getitem. rewrite Hp, Hq. cbn [bind]. by rewrite Hx. Qed.

(** Every iteration the loop can reach starts from a grid of shape
    [(n, n)] and produces one. *)
Lemma reachable_shape (n : Z) (bc : BoundaryConditions) (u0 : Grid)
    (boundary_mask : list (list bool)) (k : nat) :
  1 ≤ n → initial_grid n bc = inr u0 → make_mask n bc = inr boundary_mask →
  ∃ uk, sweeps n bc boundary_mask k u0 = inr uk ∧ shape n uk.
Proof.
  intros Hn E0 Em.
  destruct (setup_spec n bc u0 boundary_mask Hn E0 Em) as (Hu0 & Hm & _).
  apply (sweeps_invariant n bc boundary_mask (shape n) (λ _, True)); [|done].
  intros a Ha.
  destruct (step_total n bc boundary_mask a) as (a' & mc & ? & ? & ?); [done..|].
  by exists a', mc.
Qed.

(** A cell of a Dirichlet edge is the same before and after a sweep. *)
Lemma sweep_keeps_dirichlet (n : Z) (bc : BoundaryConditions)
    (boundary_mask : list (list bool)) (a a' : Grid) (p q : nat) :
  boundary_mask_of n bc boundary_mask → shape n a →
  sweep n bc boundary_mask a = inr a' →
  dirichlet_cell n bc p q = true → cell a' p q = cell a p q.
Proof.
  intros Hm Ha E HD.
  destruct (sweep_spec n bc boundary_mask a Hm Ha) as (a1 & E1 & _ & _ & Hrest & _).
  rewrite E in E1. simplify_eq. apply Hrest; [|by apply dirichlet_not_updated].
  destruct (in_slice n p) eqn:Hp; [|by left].
  destruct (in_slice n q) eqn:Hq; [|by right].
  by rewrite dirichlet_not_interior in HD.
Qed.

(** * The claims *)


(** A run of the solver on a grid with at least one cell, with the facts
    about its bookkeeping that do not depend on the grid's values. *)
Lemma solve_bookkeeping (c : Config) :
  1 ≤ grid_size c →
  ∃ r, solve c = inr r ∧
    (length (convergence_history r) ≤ Z.to_nat (max_iterations c))%nat ∧
    (∀ idx max_change, convergence_history r !! idx = Some max_change →
       convergence_test max_change (tolerance c) (Z.of_nat idx) = true ↔
       converged r = true ∧ S idx = length (convergence_history r)) ∧
    (if converged r
     then final_iteration r = Some (Z.of_nat (length (convergence_history r))) ∧
          (1 ≤ length (convergence_history r))%nat
     else final_iteration r = None ∧
          length (convergence_history r) = Z.to_nat (max_iterations c)).
Proof.
  intros Hn.
  destruct (solve_spec c (shape (grid_size c)) (λ _, True))
    as (u0 & mask & r & _ & _ & Er & _ & _ & _ & Hlen & Htest & Hfin); [done| |].
  - intros u0 mask E0 Em.
    destruct (setup_spec _ _ u0 mask Hn E0 Em) as (Hu0 & Hm & _).
    split; [done|]. intros a Ha.
    destruct (step_total (grid_size c) (boundary_conditions c) mask a)
      as (a' & mc & ? & ? & ?); [done..|].
    by exists a', mc.
  - by exists r.
Qed.

Lemma convergence_test_true (max_change tol : float) (iteration : Z) :
  convergence_test max_change tol iteration = true ↔
  PrimFloat.ltb max_change tol = true ∧ iteration > 10.
Proof.
  unfold convergence_test. by rewrite andb_true_iff, bool_decide_eq_true.
Qed.

(** C2.  The run declares convergence at an iteration exactly when that
    iteration's [max_change] is below the tolerance and its zero-based
    index is greater than 10: the test holds at a completed iteration if
    and only if the run ended there with [converged = True].  When
    convergence is declared, the loop has stopped after that iteration,
    [final_iteration = iteration + 1] is the count the result reports,
    and at least 12 iterations have been completed. *)
Theorem convergence_declared_exactly_when (c : Config) :
  1 ≤ grid_size c →
  ∃ r, solve c = inr r ∧
    (∀ (iteration : nat) max_change,
       convergence_history r !! iteration = Some max_change →
       (PrimFloat.ltb max_change (tolerance c) = true ∧ Z.of_nat iteration > 10) ↔
       (converged r = true ∧ S iteration = length (convergence_history r))) ∧
    (converged r = true →
       ∃ (iteration : Z) max_change,
         10 < iteration < max_iterations c ∧
         last (convergence_history r) = Some max_change ∧
         PrimFloat.ltb max_change (tolerance c) = true ∧
         final_iteration r = Some (iteration + 1) ∧
         iterations_run c r = iteration + 1 ∧
         Z.of_nat (length (convergence_history r)) = iteration + 1 ∧
         12 ≤ iterations_run c r).
Proof.
  intros Hn.
  destruct (solve_bookkeeping c Hn) as (r & Er & Hlen & Htest & Hfin).
  exists r. split; [done|]. split.
  - intros iteration mc Hmc. rewrite <- convergence_test_true. by apply Htest.
  - intros Hc. rewrite Hc in Hfin. destruct Hfin as [Hfin Hpos].
    destruct (lookup_lt_is_Some_2 (convergence_history r)
                (pred (length (convergence_history r)))) as [x Hlast]; [lia|].
    assert (convergence_test x (tolerance c)
              (Z.of_nat (pred (length (convergence_history r)))) = true)
      as [Hlt Hgt]%convergence_test_true.
    { apply (Htest _ x Hlast). split; [done|lia]. }
    exists (Z.of_nat (pred (length (convergence_history r)))), x.
    unfold iterations_run. rewrite Hc, Hfin. cbn [from_option id].
    rewrite last_lookup. split_and!; try done; try lia.
    f_equal. lia.
Qed.

(** C8.  The count the result reports never exceeds [max_iterations];
    when convergence was not declared the loop ran the full cap, the
    count is [max_iterations] and the history has that many entries; and
    in every case the history has one entry per completed iteration, its
    length being the reported count. *)
Theorem iteration_count_and_history (c : Config) :
  1 ≤ grid_size c → 0 ≤ max_iterations c →
  ∃ r, solve c = inr r ∧
    iterations_run c r ≤ max_iterations c ∧
    (converged r = false →
       iterations_run c r = max_iterations c ∧
       Z.of_nat (length (convergence_history r)) = max_iterations c) ∧
    Z.of_nat (length (convergence_history r)) = iterations_run c r.
Proof.
  intros Hn Hmax.
  destruct (solve_bookkeeping c Hn) as (r & Er & Hlen & _ & Hfin).
  exists r. split; [done|]. unfold iterations_run.
  destruct (converged r).
  - destruct Hfin as [-> _]. cbn [from_option id]. split_and!; try done; lia.
  - destruct Hfin as [_ ->]. split_and!; try done; lia.
Qed.

(** The grids of a run all agree with the initial grid on the cells of
    the Dirichlet edges. *)
Lemma dirichlet_invariant (n : Z) (bc : BoundaryConditions) (u0 : Grid)
    (boundary_mask : list (list bool)) :
  1 ≤ n → initial_grid n bc = inr u0 → make_mask n bc = inr boundary_mask →
  dirichlet_fixed n bc u0 u0 ∧
  ∀ a, dirichlet_fixed n bc u0 a → ∃ a' max_change,
    sweep n bc boundary_mask a = inr a' ∧
    np_max (abs_diff a' a) = inr max_change ∧ dirichlet_fixed n bc u0 a' ∧ True.
Proof.
  intros Hn E0 Em.
  destruct (setup_spec n bc u0 boundary_mask Hn E0 Em) as (Hu0 & Hm & _).
  split; [by split|]. intros a [Ha Hfix].
  destruct (step_total n bc boundary_mask a) as (a' & mc & E & Emc & Ha'); [done..|].
  exists a', mc. split_and!; try done. split; [done|].
  intros p q HD. rewrite <- Hfix by done.
  by apply (sweep_keeps_dirichlet n bc boundary_mask).
Qed.

(** C3.  Every cell the boundary mask marks holds, in the initial grid,
    the value stamped into it (the value of the last Dirichlet edge
    through the cell in the stamping order top, bottom, left, right), and
    holds that same value in the grid after any number of sweeps and in
    the grid the run ends with. *)
Theorem dirichlet_cells_never_change (c : Config) :
  1 ≤ grid_size c →
  ∃ u0 boundary_mask r,
    initial_grid (grid_size c) (boundary_conditions c) = inr u0 ∧
    make_mask (grid_size c) (boundary_conditions c) = inr boundary_mask ∧
    solve c = inr r ∧
    ∀ i j, getitem (grid_size c) boundary_mask i j = inr true →
      (∃ p q, index (grid_size c) i = inr p ∧ index (grid_size c) j = inr q ∧
         getitem (grid_size c) u0 i j =
         inr (stamped (grid_size c) (boundary_conditions c)
                (value (top (boundary_conditions c)))
                (value (bottom (boundary_conditions c)))
                (value (left (boundary_conditions c)))
                (value (right (boundary_conditions c))) p q 0%float)) ∧
      (∀ k, ∃ uk,
         sweeps (grid_size c) (boundary_conditions c) boundary_mask k u0 = inr uk ∧
         getitem (grid_size c) uk i j = getitem (grid_size c) u0 i j) ∧
      getitem (grid_size c) (u r) i j = getitem (grid_size c) u0 i j.
Proof.
  intros Hn. set (n := grid_size c). set (bc := boundary_conditions c).
  destruct (initial_grid_spec n bc Hn) as (u0 & E0 & _).
  destruct (make_mask_spec n bc Hn) as (mask & Em & _).
  destruct (setup_spec n bc u0 mask Hn E0 Em) as (Hu0 & [Hm Hmask] & Hstamp).
  pose proof (dirichlet_invariant n bc u0 mask Hn E0 Em) as [HG0 Hstep].
  destruct (solve_spec c (dirichlet_fixed n bc u0) (λ _, True))
    as (u0' & mask' & r & E0' & Em' & Er & [_ Hr] & _); [done| |].
  { intros u0' mask' E0' Em'. fold n bc in E0', Em'.
    rewrite E0 in E0'. rewrite Em in Em'. simplify_eq. by split. }
  exists u0, mask, r. split_and!; try done.
  intros i j (p & q & Hp & Hq & Hpq)%getitem_inv.
  assert (dirichlet_cell n bc p q = true) as HD.
  { rewrite Hmask in Hpq by by eapply index_lt. by simplify_eq. }
  split_and!.
  - exists p, q. split_and!; try done.
    apply (getitem_index n u0 i j p q); [done..|].
    apply Hstamp; by eapply index_lt.
  - intros k.
    destruct (sweeps_invariant n bc mask _ _ Hstep k u0 HG0) as (uk & Ek & _ & Hk).
    exists uk. split; [done|].
    apply (getitem_cell_eq n uk u0 i j p q); auto.
  - apply (getitem_cell_eq n (u r) u0 i j p q); auto.
Qed.

Lemma post_jacobi_interior (n : Z) (bc : BoundaryConditions)
    (boundary_mask : list (list bool)) (a w : Grid) (p q : nat) :
  boundary_mask_of n bc boundary_mask → shape n a →
  jacobi n a boundary_mask a = inr w →
  in_slice n p = true → in_slice n q = true →
  cell w p q = Some (mean_at a p q).
Proof.
  intros [Hm Hmask] Ha E Hp Hq.
  destruct (jacobi_spec n a boundary_mask a) as (w' & E' & _ & C); [done..|].
  rewrite E in E'. simplify_eq. rewrite C, decide_True; [done|].
  split_and!; [done|done|].
  apply in_slice_true in Hp as Hp', Hq as Hq'. rewrite Hmask by lia.
  by rewrite dirichlet_not_interior.
Qed.

Lemma is_neumann_true (e : BoundaryEdge) : type e = neumann → is_neumann e = true.
Proof. intros H. unfold is_neumann. by apply bool_decide_eq_true. Qed.

(** C4.  In every iteration, for each edge of type Neumann, the new grid
    holds along that edge (between the corners, where the edge has an
    interior neighbour) the value of the adjacent interior row or column
    of the new grid, as the Jacobi loops left it, plus the edge's value
    for top and left, minus the edge's value for bottom and right. *)
Theorem neumann_edges_follow_interior (n : Z) (bc : BoundaryConditions) (k : nat) :
  1 ≤ n →
  ∃ u0 boundary_mask u_old post_jacobi u_new,
    initial_grid n bc = inr u0 ∧ make_mask n bc = inr boundary_mask ∧
    sweeps n bc boundary_mask k u0 = inr u_old ∧
    jacobi n u_old boundary_mask u_old = inr post_jacobi ∧
    sweep n bc boundary_mask u_old = inr u_new ∧
    (type (top bc) = neumann → ∀ j, 1 ≤ j ≤ n - 2 →
       ∃ x, getitem n post_jacobi 1 j = inr x ∧ getitem n u_new 1 j = inr x ∧
            getitem n u_new 0 j = inr (PrimFloat.add x (value (top bc)))) ∧
    (type (bottom bc) = neumann → ∀ j, 1 ≤ j ≤ n - 2 →
       ∃ x, getitem n post_jacobi (-2) j = inr x ∧ getitem n u_new (-2) j = inr x ∧
            getitem n u_new (-1) j = inr (PrimFloat.sub x (value (bottom bc)))) ∧
    (type (left bc) = neumann → ∀ i, 1 ≤ i ≤ n - 2 →
       ∃ x, getitem n post_jacobi i 1 = inr x ∧ getitem n u_new i 1 = inr x ∧
            getitem n u_new i 0 = inr (PrimFloat.add x (value (left bc)))) ∧
    (type (right bc) = neumann → ∀ i, 1 ≤ i ≤ n - 2 →
       ∃ x, getitem n post_jacobi i (-2) = inr x ∧ getitem n u_new i (-2) = inr x ∧
            getitem n u_new i (-1) = inr (PrimFloat.sub x (value (right bc)))).
Proof.
  intros Hn.
  destruct (initial_grid_spec n bc Hn) as (u0 & E0 & _).
  destruct (make_mask_spec n bc Hn) as (mask & Em & _).
  destruct (setup_spec n bc u0 mask Hn E0 Em) as (Hu0 & Hm & _).
  destruct (reachable_shape n bc u0 mask k Hn E0 Em) as (uk & Ek & Huk).
  destruct (jacobi_spec n uk mask uk) as (w & Ew & Hw & _); [done|by destruct Hm|done|].
  destruct (sweep_spec n bc mask uk Hm Huk)
    as (u1 & E1 & Hu1 & Hint & _ & HT & HB & HL & HR).
  pose proof (post_jacobi_interior n bc mask uk w) as Hpost.
  assert (∀ i, 0 ≤ i < n → index n i = inr (Z.to_nat i)) as Hidx
    by (intros; by apply index_nonneg).
  exists u0, mask, uk, w, u1. split_and!; try done.
  - intros HN%is_neumann_true j Hj.
    assert (in_slice n 1 = true) by (apply in_slice_true; lia).
    assert (in_slice n (Z.to_nat j) = true) by (apply in_slice_true; lia).
    assert (top_update n bc 0 (Z.to_nat j) = true)
      by (unfold top_update; by rewrite HN, bool_decide_eq_true_2).
    exists (mean_at uk 1 (Z.to_nat j)). split_and!.
    + apply (getitem_index n w 1 j 1%nat (Z.to_nat j));
        [apply (Hidx 1); lia|apply Hidx; lia|by apply Hpost].
    + apply (getitem_index n u1 1 j 1%nat (Z.to_nat j));
        [apply (Hidx 1); lia|apply Hidx; lia|by apply Hint].
    + apply (getitem_index n u1 0 j 0%nat (Z.to_nat j));
        [apply (Hidx 0); lia|apply Hidx; lia|].
      by rewrite HT, Hint.
  - intros HN%is_neumann_true j Hj.
    assert (in_slice n (Z.to_nat (n - 2)) = true) by (apply in_slice_true; lia).
    assert (in_slice n (Z.to_nat j) = true) by (apply in_slice_true; lia).
    assert (bottom_update n bc (Z.to_nat (n - 1)) (Z.to_nat j) = true)
      by (unfold bottom_update; by rewrite HN, bool_decide_eq_true_2).
    exists (mean_at uk (Z.to_nat (n - 2)) (Z.to_nat j)). split_and!.
    + apply (getitem_index n w _ j (Z.to_nat (n - 2)) (Z.to_nat j));
        [apply index_before_last; lia|apply Hidx; lia|by apply Hpost].
    + apply (getitem_index n u1 _ j (Z.to_nat (n - 2)) (Z.to_nat j));
        [apply index_before_last; lia|apply Hidx; lia|by apply Hint].
    + apply (getitem_index n u1 _ j (Z.to_nat (n - 1)) (Z.to_nat j));
        [apply index_last; lia|apply Hidx; lia|].
      by rewrite HB, Hint.
  - intros HN%is_neumann_true i Hi.
    assert (in_slice n 1 = true) by (apply in_slice_true; lia).
    assert (in_slice n (Z.to_nat i) = true) by (apply in_slice_true; lia).
    assert (left_update n bc (Z.to_nat i) 0 = true)
      by (unfold left_update; by rewrite HN, bool_decide_eq_true_2).
    exists (mean_at uk (Z.to_nat i) 1). split_and!.
    + apply (getitem_index n w i 1 (Z.to_nat i) 1%nat);
        [apply Hidx; lia|apply (Hidx 1); lia|by apply Hpost].
    + apply (getitem_index n u1 i 1 (Z.to_nat i) 1%nat);
        [apply Hidx; lia|apply (Hidx 1); lia|by apply Hint].
    + apply (getitem_index n u1 i 0 (Z.to_nat i) 0%nat);
        [apply Hidx; lia|apply (Hidx 0); lia|].
      by rewrite HL, Hint.
  - intros HN%is_neumann_true i Hi.
    assert (in_slice n (Z.to_nat (n - 2)) = true) by (apply in_slice_true; lia).
    assert (in_slice n (Z.to_nat i) = true) by (apply in_slice_true; lia).
    assert (right_update n bc (Z.to_nat i) (Z.to_nat (n - 1)) = true)
      by (unfold right_update; by rewrite HN, bool_decide_eq_true_2).
    exists (mean_at uk (Z.to_nat i) (Z.to_nat (n - 2))). split_and!.
    + apply (getitem_index n w i _ (Z.to_nat i) (Z.to_nat (n - 2)));
        [apply Hidx; lia|apply index_before_last; lia|by apply Hpost].
    + apply (getitem_index n u1 i _ (Z.to_nat i) (Z.to_nat (n - 2)));
        [apply Hidx; lia|apply index_before_last; lia|by apply Hint].
    + apply (getitem_index n u1 i _ (Z.to_nat i) (Z.to_nat (n - 1)));
        [apply Hidx; lia|apply index_last; lia|].
      by rewrite HR, Hint.
Qed.

(** ** Corners *)

Lemma corner_not_updated (n : Z) (bc : BoundaryConditions) (p q : nat) :
  in_slice n p = false → in_slice n q = false → neumann_cell n bc p q = false.
Proof.
  intros Hp Hq. unfold neumann_cell, top_update, bottom_update, left_update, right_update.
  rewrite Hp, Hq. by rewrite !andb_false_r.
Qed.

Lemma sweep_keeps_corners (n : Z) (bc : BoundaryConditions)
    (boundary_mask : list (list bool)) (a a' : Grid) (p q : nat) :
  boundary_mask_of n bc boundary_mask → shape n a →
  sweep n bc boundary_mask a = inr a' →
  in_slice n p = false → in_slice n q = false → cell a' p q = cell a p q.
Proof.
  intros Hm Ha E Hp Hq.
  destruct (sweep_spec n bc boundary_mask a Hm Ha) as (a1 & E1 & _ & _ & Hrest & _).
  rewrite E in E1. simplify_eq. apply Hrest; [by left|by apply corner_not_updated].
Qed.

Lemma corners_invariant (n : Z) (bc : BoundaryConditions) (u0 : Grid)
    (boundary_mask : list (list bool)) :
  1 ≤ n → initial_grid n bc = inr u0 → make_mask n bc = inr boundary_mask →
  corners_fixed n u0 u0 ∧
  ∀ a, corners_fixed n u0 a → ∃ a' max_change,
    sweep n bc boundary_mask a = inr a' ∧
    np_max (abs_diff a' a) = inr max_change ∧ corners_fixed n u0 a' ∧ True.
Proof.
  intros Hn E0 Em.
  destruct (setup_spec n bc u0 boundary_mask Hn E0 Em) as (Hu0 & Hm & _).
  split; [by split|]. intros a [Ha Hfix].
  destruct (step_total n bc boundary_mask a) as (a' & mc & E & Emc & Ha'); [done..|].
  exists a', mc. split_and!; try done. split; [done|].
  intros p q Hp Hq. rewrite <- Hfix by done.
  by apply (sweep_keeps_corners n bc boundary_mask).
Qed.

(** A cell on no Dirichlet edge starts at zero. *)
Lemma stamped_off_dirichlet (n : Z) (bc : BoundaryConditions) (vt vb vl vr old : float)
    (p q : nat) :
  dirichlet_cell n bc p q = false → stamped n bc vt vb vl vr p q old = old.
Proof.
  unfold dirichlet_cell, stamped. intros H.
  repeat apply orb_false_iff in H as [H ?].
  by repeat match goal with H : _ = false |- _ => rewrite H; clear H end.
Qed.

(** C5, as stated, fails.  Top (value 1) and left (value 4) are both
    Neumann; after the iteration the left update, applied after the top
    one, would make the shared corner [u[0, 1] + 4]; the corner is still
    the [0.0] it started with. *)
Lemma neumann_corner_is_not_overwritten :
  ∃ r x,
    solve neumann_corner_example = inr r ∧
    getitem 4 (u r) 0 1 = inr x ∧
    getitem 4 (u r) 0 0 = inr 0%float ∧
    getitem 4 (u r) 0 0 ≠
      inr (PrimFloat.add x (value (left (boundary_conditions neumann_corner_example)))).
Proof.
  eexists _, _. split; [vm_compute; reflexivity|].
  split; [vm_compute; reflexivity|]. split; [vm_compute; reflexivity|].
  vm_compute. intros H.
  apply (f_equal (λ r, match r with inr v => PrimFloat.eqb v 5 | inl _ => true end)) in H.
  vm_compute in H. discriminate.
Qed.

(** C5, amended.  No update of a sweep writes a corner cell: the Jacobi
    loops stay in the interior and each Neumann statement covers the
    positions [1 .. n-2] of its edge.  So in every iteration each of the
    four corners holds in the new grid what it held in the previous one,
    which is what it held in the initial grid; a corner shared by two
    Neumann edges (on a grid with at least two rows) is never stamped
    either and holds [0.0] throughout. *)
Theorem corners_are_never_written (n : Z) (bc : BoundaryConditions) (k : nat) :
  1 ≤ n →
  ∃ u0 boundary_mask u_old u_new,
    initial_grid n bc = inr u0 ∧ make_mask n bc = inr boundary_mask ∧
    sweeps n bc boundary_mask k u0 = inr u_old ∧
    sweep n bc boundary_mask u_old = inr u_new ∧
    ∀ i j, (i = 0 ∨ i = -1) → (j = 0 ∨ j = -1) →
      getitem n u_new i j = getitem n u_old i j ∧
      getitem n u_old i j = getitem n u0 i j ∧
      (2 ≤ n →
       type (if decide (i = 0) then top bc else bottom bc) = neumann →
       type (if decide (j = 0) then left bc else right bc) = neumann →
       getitem n u_new i j = inr 0%float).
Proof.
  intros Hn.
  destruct (initial_grid_spec n bc Hn) as (u0 & E0 & _).
  destruct (make_mask_spec n bc Hn) as (mask & Em & _).
  destruct (setup_spec n bc u0 mask Hn E0 Em) as (Hu0 & Hm & Hstamp).
  destruct (corners_invariant n bc u0 mask Hn E0 Em) as [HG0 Hstep].
  destruct (sweeps_invariant n bc mask _ _ Hstep k u0 HG0) as (uk & Ek & Huk & Hk).
  destruct (sweep_spec n bc mask uk Hm Huk) as (u1 & E1 & Hu1 & _).
  exists u0, mask, uk, u1. split_and!; try done.
  intros i j Hi Hj.
  assert (∃ p, index n i = inr p ∧ in_slice n p = false ∧
               (p = 0%nat ∧ i = 0 ∨ p = Z.to_nat (n - 1) ∧ i = -1)) as (p & Hp & Sp & Cp).
  { destruct Hi as [->| ->].
    - exists 0%nat. split_and!; [by apply (index_nonneg n 0); lia| |by left].
      apply in_slice_false. lia.
    - exists (Z.to_nat (n - 1)). split_and!; [by apply index_last| |by right].
      apply in_slice_false. lia. }
  assert (∃ q, index n j = inr q ∧ in_slice n q = false ∧
               (q = 0%nat ∧ j = 0 ∨ q = Z.to_nat (n - 1) ∧ j = -1)) as (q & Hq & Sq & Cq).
  { destruct Hj as [->| ->].
    - exists 0%nat. split_and!; [by apply (index_nonneg n 0); lia| |by left].
      apply in_slice_false. lia.
    - exists (Z.to_nat (n - 1)). split_and!; [by apply index_last| |by right].
      apply in_slice_false. lia. }
  assert (cell u1 p q = cell uk p q) as H1
    by by apply (sweep_keeps_corners n bc mask).
  assert (cell uk p q = cell u0 p q) as H2 by by apply Hk.
  split_and!.
  - by apply (getitem_cell_eq n u1 uk i j p q).
  - by apply (getitem_cell_eq n uk u0 i j p q).
  - intros Hn2 Ti Tj.
    apply (getitem_index n u1 i j p q); [done..|].
    rewrite H1, H2, Hstamp by by eapply index_lt.
    f_equal. apply stamped_off_dirichlet.
    unfold dirichlet_cell, on_top, on_bottom, on_left, on_right.
    destruct Cp as [[-> ->]|[-> ->]], Cq as [[-> ->]|[-> ->]];
      rewrite ?decide_True in Ti, Tj by done;
      rewrite ?decide_False in Ti, Tj by done;
      rewrite (neumann_not_dirichlet _ (is_neumann_true _ Ti)),
              (neumann_not_dirichlet _ (is_neumann_true _ Tj));
      repeat case_bool_decide; try lia; by rewrite ?andb_false_r.
Qed.

(** ** Inputs outside the documented ranges *)





(** ** All four edges Dirichlet at one value *)

(** C7, as stated, fails.  After the first sweep of the [5 x 5] grid with
    every edge at 100 the centre cell is still [0.0], not 100, and the
    recorded [max_change] is 50, not 0. *)
Lemma steady_state_is_not_immediate :
  ∃ r,
    solve steady_state_example = inr r ∧
    getitem 5 (u r) 2 2 = inr 0%float ∧
    convergence_history r = [50%float] ∧
    getitem 5 (u r) 2 2 ≠ inr 100%float ∧
    convergence_history r ≠ [0%float].
Proof.
  eexists. split; [vm_compute; reflexivity|].
  split; [vm_compute; reflexivity|]. split; [vm_compute; reflexivity|].
  split; vm_compute; intros H.
  - apply (f_equal (λ r, match r with inr v => PrimFloat.eqb v 100 | inl _ => true end)) in H.
    vm_compute in H. discriminate.
  - apply (f_equal (λ l, match l with [v] => PrimFloat.eqb v 0 | _ => true end)) in H.
    vm_compute in H. discriminate.
Qed.

Lemma foldl_np_maximum_zero (xs : list float) :
  Forall (eq 0%float) xs → foldl np_maximum 0%float xs = 0%float.
Proof. induction 1 as [|x xs <- _ IH]; [done|]. exact IH. Qed.

Lemma Forall_concat_replicate {A : Type} (P : A → Prop) (m : nat) (l : list A) :
  Forall P l → Forall P (concat (replicate m l)).
Proof.
  intros Hl. induction m as [|m IH]; simpl; [done|]. by apply Forall_app.
Qed.

(** The reduction of an all-zero difference. *)
Lemma np_max_zeros (m : nat) :
  (1 ≤ m)%nat →
  np_max (abs_diff (replicate m (replicate m 0%float))
                   (replicate m (replicate m 0%float))) = inr 0%float.
Proof.
  intros Hm. unfold abs_diff. rewrite !zip_with_replicate.
  change (PrimFloat.abs (PrimFloat.sub 0 0)) with 0%float.
  destruct m as [|m]; [lia|]. unfold np_max. rewrite !replicate_S. cbn [concat app].
  f_equal. apply foldl_np_maximum_zero. apply Forall_app. split.
  - apply Forall_replicate_eq.
  - apply Forall_concat_replicate. apply Forall_cons. split; [done|].
    apply Forall_replicate_eq.
Qed.

Lemma stamped_uniform (n : Z) (bc : BoundaryConditions) (V old : float) (p q : nat) :
  dirichlet_cell n bc p q = true → stamped n bc V V V V p q old = V.
Proof.
  unfold dirichlet_cell, stamped. intros H.
  repeat case_match; try done.
Qed.

Lemma stamped_same (n : Z) (bc : BoundaryConditions) (V : float) (p q : nat) :
  stamped n bc V V V V p q V = V.
Proof. unfold stamped. by repeat case_match. Qed.

Lemma value_at_zero (n : Z) (a : Grid) (p q : nat) :
  (∀ p' q', Z.of_nat p' < n → Z.of_nat q' < n → cell a p' q' = Some 0%float) →
  shape n a → value_at a p q = 0%float.
Proof.
  intros Hz Ha. unfold value_at. destruct (cell a p q) as [x|] eqn:E; [|done].
  destruct (cell_lt n a p q x Ha E). rewrite Hz in E by done. by simplify_eq.
Qed.

(** Every cell of an array with all four edges Dirichlet is either in the
    interior or on a Dirichlet edge. *)
Lemma uniform_dirichlet_cells (n : Z) (V : float) (p q : nat) :
  Z.of_nat p < n → Z.of_nat q < n →
  in_slice n p = true ∧ in_slice n q = true ∨
  dirichlet_cell n (uniform_dirichlet V) p q = true.
Proof.
  intros Hp Hq.
  destruct (in_slice n p) eqn:Sp, (in_slice n q) eqn:Sq; [by left|right..];
    rewrite ?in_slice_false in *;
    unfold dirichlet_cell, on_top, on_bottom, on_left, on_right; cbn;
    repeat case_bool_decide; try done; lia.
Qed.

(** C7, amended.  With all four edges Dirichlet at the same value [V] on
    a grid of size [n >= 1], the first sweep leaves every boundary cell at
    [V], but the interior starts at zero and is only relaxed towards [V]:
    a cell at distance two or more from every edge (there are such cells
    when [n >= 5]) is still [0.0] after the first sweep.  The field is
    uniformly [V] with [max_change == 0] after the first sweep when
    [V = 0.0]. *)
Theorem uniform_dirichlet_first_sweep (n : Z) (V : float) :
  1 ≤ n →
  ∃ u0 boundary_mask u1 max_change,
    initial_grid n (uniform_dirichlet V) = inr u0 ∧
    make_mask n (uniform_dirichlet V) = inr boundary_mask ∧
    sweep n (uniform_dirichlet V) boundary_mask u0 = inr u1 ∧
    np_max (abs_diff u1 u0) = inr max_change ∧
    (∀ i j, 0 ≤ i < n → 0 ≤ j < n → i = 0 ∨ i = n - 1 ∨ j = 0 ∨ j = n - 1 →
       getitem n u1 i j = inr V) ∧
    (∀ i j, 2 ≤ i ≤ n - 3 → 2 ≤ j ≤ n - 3 → getitem n u1 i j = inr 0%float) ∧
    (V = 0%float →
       (∀ i j, 0 ≤ i < n → 0 ≤ j < n → getitem n u1 i j = inr 0%float) ∧
       max_change = 0%float).
Proof.
  intros Hn. set (bc := uniform_dirichlet V).
  destruct (initial_grid_spec n bc Hn) as (u0 & E0 & _).
  destruct (make_mask_spec n bc Hn) as (mask & Em & _).
  destruct (setup_spec n bc u0 mask Hn E0 Em) as (Hu0 & Hm & Hstamp).
  destruct (sweep_spec n bc mask u0 Hm Hu0) as (u1 & E1 & Hu1 & Hint & _).
  destruct (np_max_total n u1 u0 Hn Hu1 Hu0) as [mc Emc].
  (* interior cells start at zero *)
  assert (∀ p q, in_slice n p = true → in_slice n q = true →
            value_at u0 p q = 0%float) as Hzero.
  { intros p q Hp Hq. unfold value_at.
    apply in_slice_true in Hp as Hp', Hq as Hq'.
    rewrite Hstamp by lia. cbn [default from_option id].
    apply stamped_off_dirichlet. by apply dirichlet_not_interior. }
  exists u0, mask, u1, mc. split_and!; try done.
  - intros i j Hi Hj Hedge. apply getitem_cell; [done..|].
    assert (dirichlet_cell n bc (Z.to_nat i) (Z.to_nat j) = true) as HD.
    { unfold dirichlet_cell, on_top, on_bottom, on_left, on_right. cbn.
      repeat case_bool_decide; try done. lia. }
    rewrite (sweep_keeps_dirichlet n bc mask u0 u1) by done.
    rewrite Hstamp by lia. f_equal. by apply stamped_uniform.
  - intros i j Hi Hj. apply getitem_cell; [done|lia|lia|].
    rewrite Hint by (apply in_slice_true; lia). f_equal. unfold mean_at.
    rewrite !Hzero by (apply in_slice_true; lia). done.
  - intros ->.
    assert (∀ p q, Z.of_nat p < n → Z.of_nat q < n → cell u0 p q = Some 0%float) as H0.
    { intros p q Hp Hq. rewrite Hstamp by done. f_equal. apply stamped_same. }
    assert (∀ p q, Z.of_nat p < n → Z.of_nat q < n → cell u1 p q = Some 0%float) as H1.
    { intros p q Hp Hq.
      destruct (uniform_dirichlet_cells n 0%float p q Hp Hq) as [[Sp Sq]|HD].
      - rewrite Hint by done. f_equal. unfold mean_at.
        by rewrite !(value_at_zero n u0).
      - rewrite (sweep_keeps_dirichlet n bc mask u0 u1) by done. by apply H0. }
    split.
    + intros i j Hi Hj. apply getitem_cell; [done..|]. apply H1; lia.
    + assert (∀ a, shape n a →
                (∀ p q, Z.of_nat p < n → Z.of_nat q < n → cell a p q = Some 0%float) →
                a = replicate (Z.to_nat n) (replicate (Z.to_nat n) 0%float)) as Hrep.
      { intros a Ha Hcells. apply (array_ext n); [done|apply shape_replicate; lia|].
        intros p q. rewrite cell_replicate. case_decide as Hpq.
        - apply Hcells; lia.
        - destruct (cell a p q) as [x|] eqn:E; [|done].
          destruct (cell_lt n a p q x Ha E). lia. }
      rewrite (Hrep u1 Hu1 H1), (Hrep u0 Hu0 H0), np_max_zeros in Emc by lia.
      by simplify_eq.
Qed.

(** ** The solver without the mask test *)

(** The mask the solver builds is [False] on every interior cell. *)
Lemma mask_false_on_interior (n : Z) (bc : BoundaryConditions)
    (boundary_mask : list (list bool)) (i j : Z) :
  make_mask n bc = inr boundary_mask →
  1 ≤ i ≤ n - 2 → 1 ≤ j ≤ n - 2 →
  getitem n boundary_mask i j = inr false.
Proof.
  intros Em Hi Hj.
  destruct (make_mask_spec n bc) as (mask & Em' & Hm & Hmask); [lia|].
  rewrite Em in Em'. simplify_eq.
  apply getitem_cell; [done|lia|lia|].
  rewrite Hmask by lia. f_equal.
  apply dirichlet_not_interior; apply in_slice_true; lia.
Qed.

Lemma jacobi_unmasked_eq (n : Z) (bc : BoundaryConditions)
    (boundary_mask : list (list bool)) (a w : Grid) :
  make_mask n bc = inr boundary_mask →
  jacobi_unmasked n a w = jacobi n a boundary_mask w.
Proof.
  intros Em. unfold jacobi_unmasked, jacobi.
  apply for_each_ext. intros i w1 Hi%elem_of_range.
  apply for_each_ext. intros j w2 Hj%elem_of_range.
  unfold jacobi_cell.
  rewrite (mask_false_on_interior n bc boundary_mask i j) by (done || lia).
  done.
Qed.

Lemma iterate_unmasked_eq (n : Z) (bc : BoundaryConditions)
    (boundary_mask : list (list bool)) (tol : float) (its : list Z) (st : LoopState) :
  make_mask n bc = inr boundary_mask →
  iterate_unmasked n bc tol its st = iterate n bc boundary_mask tol its st.
Proof.
  intros Em. revert st. induction its as [|it its IH]; intros st; [done|].
  cbn [iterate iterate_unmasked].
  assert (iteration_body_unmasked n bc tol it st =
          iteration_body n bc boundary_mask tol it st) as ->.
  { unfold iteration_body_unmasked, iteration_body, sweep_unmasked, sweep.
    by rewrite (jacobi_unmasked_eq n bc boundary_mask). }
  destruct (iteration_body n bc boundary_mask tol it st) as [e|st']; cbn [bind]; [done|].
  destruct (converged st'); [done|]. apply IH.
Qed.

(** C10.  The boundary mask is [False] at every interior cell
    [1 <= i, j <= n-2], so the test in the Jacobi loops never skips a
    cell: the solver with the test removed returns, for every
    configuration, exactly what the solver returns. *)
Theorem mask_test_is_vacuous (c : Config) :
  (∀ boundary_mask i j,
     make_mask (grid_size c) (boundary_conditions c) = inr boundary_mask →
     1 ≤ i ≤ grid_size c - 2 → 1 ≤ j ≤ grid_size c - 2 →
     getitem (grid_size c) boundary_mask i j = inr false) ∧
  solve_unmasked c = solve c.
Proof.
  split.
  - intros mask i j Em Hi Hj. by apply (mask_false_on_interior _ (boundary_conditions c)).
  - unfold solve_unmasked, solve.
    destruct (initial_grid (grid_size c) (boundary_conditions c)) as [e|u0];
      cbn [bind]; [done|].
    destruct (make_mask (grid_size c) (boundary_conditions c)) as [e|mask] eqn:Em;
      cbn [bind]; [done|].
    by apply iterate_unmasked_eq.
Qed.


(** ** The theorems at concrete inputs *)


(** C2 at the [5 x 5] run that converges after 32 iterations. *)
Lemma convergence_declared_exactly_when_witness :
  1 ≤ grid_size converging_example ∧
  ∃ r, solve converging_example = inr r ∧
    (∀ (iteration : nat) max_change,
       convergence_history r !! iteration = Some max_change →
       (PrimFloat.ltb max_change (tolerance converging_example) = true ∧
        Z.of_nat iteration > 10) ↔
       (converged r = true ∧ S iteration = length (convergence_history r))) ∧
    (converged r = true →
       ∃ (iteration : Z) max_change,
         10 < iteration < max_iterations converging_example ∧
         last (convergence_history r) = Some max_change ∧
         PrimFloat.ltb max_change (tolerance converging_example) = true ∧
         final_iteration r = Some (iteration + 1) ∧
         iterations_run converging_example r = iteration + 1 ∧
         Z.of_nat (length (convergence_history r)) = iteration + 1 ∧
         12 ≤ iterations_run converging_example r).
Proof.
  split; [cbn; lia|]. apply (convergence_declared_exactly_when converging_example).
  cbn. lia.
Defined.

(** C3 at the [5 x 5] grid with every edge held at 100. *)
Lemma dirichlet_cells_never_change_witness :
  1 ≤ grid_size steady_state_example ∧
  ∃ u0 boundary_mask r,
    initial_grid (grid_size steady_state_example)
      (boundary_conditions steady_state_example) = inr u0 ∧
    make_mask (grid_size steady_state_example)
      (boundary_conditions steady_state_example) = inr boundary_mask ∧
    solve steady_state_example = inr r ∧
    ∀ i j, getitem (grid_size steady_state_example) boundary_mask i j = inr true →
      (∃ p q, index (grid_size steady_state_example) i = inr p ∧
         index (grid_size steady_state_example) j = inr q ∧
         getitem (grid_size steady_state_example) u0 i j =
         inr (stamped (grid_size steady_state_example)
                (boundary_conditions steady_state_example)
                (value (top (boundary_conditions steady_state_example)))
                (value (bottom (boundary_conditions steady_state_example)))
                (value (left (boundary_conditions steady_state_example)))
                (value (right (boundary_conditions steady_state_example)))
                p q 0%float)) ∧
      (∀ k, ∃ uk,
         sweeps (grid_size steady_state_example)
           (boundary_conditions steady_state_example) boundary_mask k u0 = inr uk ∧
         getitem (grid_size steady_state_example) uk i j =
         getitem (grid_size steady_state_example) u0 i j) ∧
      getitem (grid_size steady_state_example) (u r) i j =
      getitem (grid_size steady_state_example) u0 i j.
Proof.
  split; [cbn; lia|]. apply (dirichlet_cells_never_change steady_state_example).
  cbn. lia.
Defined.

(** C4 at the first iteration of the all-Neumann [4 x 4] grid. *)
Lemma neumann_edges_follow_interior_witness :
  1 ≤ 4 ∧
  ∃ u0 boundary_mask u_old post_jacobi u_new,
    initial_grid 4 (boundary_conditions neumann_corner_example) = inr u0 ∧
    make_mask 4 (boundary_conditions neumann_corner_example) = inr boundary_mask ∧
    sweeps 4 (boundary_conditions neumann_corner_example) boundary_mask 0 u0
      = inr u_old ∧
    jacobi 4 u_old boundary_mask u_old = inr post_jacobi ∧
    sweep 4 (boundary_conditions neumann_corner_example) boundary_mask u_old
      = inr u_new ∧
    (type (top (boundary_conditions neumann_corner_example)) = neumann →
     ∀ j, 1 ≤ j ≤ 4 - 2 →
       ∃ x, getitem 4 post_jacobi 1 j = inr x ∧ getitem 4 u_new 1 j = inr x ∧
            getitem 4 u_new 0 j =
            inr (PrimFloat.add x (value (top (boundary_conditions neumann_corner_example))))) ∧
    (type (bottom (boundary_conditions neumann_corner_example)) = neumann →
     ∀ j, 1 ≤ j ≤ 4 - 2 →
       ∃ x, getitem 4 post_jacobi (-2) j = inr x ∧ getitem 4 u_new (-2) j = inr x ∧
            getitem 4 u_new (-1) j =
            inr (PrimFloat.sub x (value (bottom (boundary_conditions neumann_corner_example))))) ∧
    (type (left (boundary_conditions neumann_corner_example)) = neumann →
     ∀ i, 1 ≤ i ≤ 4 - 2 →
       ∃ x, getitem 4 post_jacobi i 1 = inr x ∧ getitem 4 u_new i 1 = inr x ∧
            getitem 4 u_new i 0 =
            inr (PrimFloat.add x (value (left (boundary_conditions neumann_corner_example))))) ∧
    (type (right (boundary_conditions neumann_corner_example)) = neumann →
     ∀ i, 1 ≤ i ≤ 4 - 2 →
       ∃ x, getitem 4 post_jacobi i (-2) = inr x ∧ getitem 4 u_new i (-2) = inr x ∧
            getitem 4 u_new i (-1) =
            inr (PrimFloat.sub x (value (right (boundary_conditions neumann_corner_example))))).
Proof.
  split; [lia|].
  apply (neumann_edges_follow_interior 4 (boundary_conditions neumann_corner_example) 0).
  lia.
Defined.

(** C5, amended, at the third iteration of the all-Neumann [4 x 4]
    grid. *)
Lemma corners_are_never_written_witness :
  1 ≤ 4 ∧
  ∃ u0 boundary_mask u_old u_new,
    initial_grid 4 (boundary_conditions neumann_corner_example) = inr u0 ∧
    make_mask 4 (boundary_conditions neumann_corner_example) = inr boundary_mask ∧
    sweeps 4 (boundary_conditions neumann_corner_example) boundary_mask 2 u0
      = inr u_old ∧
    sweep 4 (boundary_conditions neumann_corner_example) boundary_mask u_old
      = inr u_new ∧
    ∀ i j, (i = 0 ∨ i = -1) → (j = 0 ∨ j = -1) →
      getitem 4 u_new i j = getitem 4 u_old i j ∧
      getitem 4 u_old i j = getitem 4 u0 i j ∧
      (2 ≤ 4 →
       type (if decide (i = 0) then top (boundary_conditions neumann_corner_example)
             else bottom (boundary_conditions neumann_corner_example)) = neumann →
       type (if decide (j = 0) then left (boundary_conditions neumann_corner_example)
             else right (boundary_conditions neumann_corner_example)) = neumann →
       getitem 4 u_new i j = inr 0%float).
Proof.
  split; [lia|].
  apply (corners_are_never_written 4 (boundary_conditions neumann_corner_example) 2).
  lia.
Defined.

(** C7, amended, at the [5 x 5] grid with every edge held at 100. *)
Lemma uniform_dirichlet_first_sweep_witness :
  1 ≤ 5 ∧
  ∃ u0 boundary_mask u1 max_change,
    initial_grid 5 (uniform_dirichlet 100) = inr u0 ∧
    make_mask 5 (uniform_dirichlet 100) = inr boundary_mask ∧
    sweep 5 (uniform_dirichlet 100) boundary_mask u0 = inr u1 ∧
    np_max (abs_diff u1 u0) = inr max_change ∧
    (∀ i j, 0 ≤ i < 5 → 0 ≤ j < 5 → i = 0 ∨ i = 5 - 1 ∨ j = 0 ∨ j = 5 - 1 →
       getitem 5 u1 i j = inr 100%float) ∧
    (∀ i j, 2 ≤ i ≤ 5 - 3 → 2 ≤ j ≤ 5 - 3 → getitem 5 u1 i j = inr 0%float) ∧
    (100%float = 0%float →
       (∀ i j, 0 ≤ i < 5 → 0 ≤ j < 5 → getitem 5 u1 i j = inr 0%float) ∧
       max_change = 0%float).
Proof.
  split; [lia|]. apply (uniform_dirichlet_first_sweep 5 100). lia.
Defined.

(** C8 at the [5 x 5] run with a cap of 500 iterations. *)
Lemma iteration_count_and_history_witness :
  1 ≤ grid_size converging_example ∧ 0 ≤ max_iterations converging_example ∧
  ∃ r, solve converging_example = inr r ∧
    iterations_run converging_example r ≤ max_iterations converging_example ∧
    (converged r = false →
       iterations_run converging_example r = max_iterations converging_example ∧
       Z.of_nat (length (convergence_history r)) = max_iterations converging_example) ∧
    Z.of_nat (length (convergence_history r)) = iterations_run converging_example r.
Proof.
  split; [cbn; lia|]. split; [cbn; lia|].
  apply (iteration_count_and_history converging_example); cbn; lia.
Defined.


(** C10 at the all-Neumann [4 x 4] grid. *)
Lemma mask_test_is_vacuous_witness :
  (∀ boundary_mask i j,
     make_mask (grid_size neumann_corner_example)
       (boundary_conditions neumann_corner_example) = inr boundary_mask →
     1 ≤ i ≤ grid_size neumann_corner_example - 2 →
     1 ≤ j ≤ grid_size neumann_corner_example - 2 →
     getitem (grid_size neumann_corner_example) boundary_mask i j = inr false) ∧
  solve_unmasked neumann_corner_example = solve neumann_corner_example.
Proof. apply (mask_test_is_vacuous neumann_corner_example). Defined.

(** * Further properties of the solver *)

(** ** The mask and the initial grid *)

Lemma is_dirichlet_true (e : BoundaryEdge) : is_dirichlet e = true ↔ type e = dirichlet.
Proof. unfold is_dirichlet. by rewrite bool_decide_eq_true. Qed.

Lemma dirichlet_cell_true (n : Z) (bc : BoundaryConditions) (i j : Z) :
  1 ≤ n → 0 ≤ i → 0 ≤ j →
  dirichlet_cell n bc (Z.to_nat i) (Z.to_nat j) = true ↔
  (type (top bc) = dirichlet ∧ i = 0) ∨ (type (bottom bc) = dirichlet ∧ i = n - 1) ∨
  (type (left bc) = dirichlet ∧ j = 0) ∨ (type (right bc) = dirichlet ∧ j = n - 1).
Proof.
  intros Hn Hi Hj. unfold dirichlet_cell, on_top, on_bottom, on_left, on_right.
  rewrite !orb_true_iff, !andb_true_iff, !is_dirichlet_true, !bool_decide_eq_true.
  assert (Z.to_nat i = 0%nat ↔ i = 0) as -> by lia.
  assert (Z.to_nat j = 0%nat ↔ j = 0) as -> by lia.
  assert (Z.to_nat i = Z.to_nat (n - 1) ↔ i = n - 1) as -> by lia.
  assert (Z.to_nat j = Z.to_nat (n - 1) ↔ j = n - 1) as -> by lia.
  tauto.
Qed.

(** X1.  The boundary mask is [True] exactly on the rows and columns of
    the edges whose type is Dirichlet, corners included, and [False] on
    every other cell. *)
Theorem boundary_mask_marks_dirichlet_edges (n : Z) (bc : BoundaryConditions) :
  1 ≤ n →
  ∃ boundary_mask,
    make_mask n bc = inr boundary_mask ∧
    ∀ i j, 0 ≤ i < n → 0 ≤ j < n →
      ∃ marked, getitem n boundary_mask i j = inr marked ∧
        (marked = true ↔
         (type (top bc) = dirichlet ∧ i = 0) ∨
         (type (bottom bc) = dirichlet ∧ i = n - 1) ∨
         (type (left bc) = dirichlet ∧ j = 0) ∨
         (type (right bc) = dirichlet ∧ j = n - 1)).
Proof.
  intros Hn. destruct (make_mask_spec n bc Hn) as (mask & Em & Hm & Hmask).
  exists mask. split; [done|]. intros i j Hi Hj.
  exists (dirichlet_cell n bc (Z.to_nat i) (Z.to_nat j)). split.
  - apply getitem_cell; [done..|]. apply Hmask; lia.
  - apply dirichlet_cell_true; lia.
Qed.

(** The value stamping leaves in a cell, edge by edge. *)
Lemma stamped_cases {A : Type} (n : Z) (bc : BoundaryConditions) (vt vb vl vr old : A)
    (i j : Z) :
  1 ≤ n → 0 ≤ i < n → 0 ≤ j < n →
  let s := stamped n bc vt vb vl vr (Z.to_nat i) (Z.to_nat j) old in
  (type (right bc) = dirichlet → j = n - 1 → s = vr) ∧
  (type (left bc) = dirichlet → j = 0 → 2 ≤ n → s = vl) ∧
  (type (bottom bc) = dirichlet → i = n - 1 → 1 ≤ j ≤ n - 2 → s = vb) ∧
  (type (top bc) = dirichlet → i = 0 → 1 ≤ j ≤ n - 2 → s = vt).
Proof.
  intros Hn Hi Hj s. subst s. unfold stamped, on_top, on_bottom, on_left, on_right.
  split_and!.
  - intros HR%is_dirichlet_true ->. rewrite HR.
    by rewrite bool_decide_eq_true_2.
  - intros HL%is_dirichlet_true -> Hn2. rewrite HL.
    rewrite (bool_decide_eq_false_2 (Z.to_nat 0 = Z.to_nat (n - 1))) by lia.
    rewrite andb_false_r. by rewrite bool_decide_eq_true_2.
  - intros HB%is_dirichlet_true -> Hj'. rewrite HB.
    rewrite (bool_decide_eq_false_2 (Z.to_nat j = Z.to_nat (n - 1))) by lia.
    rewrite (bool_decide_eq_false_2 (Z.to_nat j = 0%nat)) by lia.
    rewrite !andb_false_r. by rewrite bool_decide_eq_true_2.
  - intros HT%is_dirichlet_true -> Hj'. rewrite HT.
    rewrite (bool_decide_eq_false_2 (Z.to_nat j = Z.to_nat (n - 1))) by lia.
    rewrite (bool_decide_eq_false_2 (Z.to_nat j = 0%nat)) by lia.
    rewrite (bool_decide_eq_false_2 (Z.to_nat 0 = Z.to_nat (n - 1))) by lia.
    rewrite !andb_false_r. by rewrite bool_decide_eq_true_2.
Qed.

(** A run together with the grid it started from, the cells of the
    Dirichlet edges being the same in both. *)
Lemma solve_keeps_dirichlet (c : Config) :
  1 ≤ grid_size c →
  ∃ u0 boundary_mask r,
    initial_grid (grid_size c) (boundary_conditions c) = inr u0 ∧
    make_mask (grid_size c) (boundary_conditions c) = inr boundary_mask ∧
    solve c = inr r ∧
    dirichlet_fixed (grid_size c) (boundary_conditions c) u0 (u r).
Proof.
  intros Hn. set (n := grid_size c). set (bc := boundary_conditions c).
  destruct (initial_grid_spec n bc Hn) as (u0 & E0 & _).
  destruct (make_mask_spec n bc Hn) as (mask & Em & _).
  pose proof (dirichlet_invariant n bc u0 mask Hn E0 Em) as [HG0 Hstep].
  destruct (solve_spec c (dirichlet_fixed n bc u0) (λ _, True))
    as (u0' & mask' & r & E0' & Em' & Er & Hr & _); [done| |].
  { intros u0' mask' E0' Em'. fold n bc in E0', Em'.
    rewrite E0 in E0'. rewrite Em in Em'. simplify_eq. by split. }
  by exists u0, mask, r.
Qed.

(** X2.  In the initial grid and in the grid the run returns alike: a
    Dirichlet right column holds the right edge's value in every row,
    corners included; a Dirichlet left column does too (on a grid with at
    least two columns); a Dirichlet top or bottom row holds its edge's
    value between the corners.  So a corner shared by two Dirichlet edges
    holds the value of the left or right one.  Every cell of the initial
    grid that the mask does not mark is [0.0]. *)
Theorem dirichlet_edges_hold_their_values (c : Config) :
  1 ≤ grid_size c →
  ∃ u0 boundary_mask r,
    initial_grid (grid_size c) (boundary_conditions c) = inr u0 ∧
    make_mask (grid_size c) (boundary_conditions c) = inr boundary_mask ∧
    solve c = inr r ∧
    ∀ i j, 0 ≤ i < grid_size c → 0 ≤ j < grid_size c →
      (∀ g, g = u0 ∨ g = u r →
         (type (right (boundary_conditions c)) = dirichlet → j = grid_size c - 1 →
            getitem (grid_size c) g i j = inr (value (right (boundary_conditions c)))) ∧
         (type (left (boundary_conditions c)) = dirichlet → j = 0 → 2 ≤ grid_size c →
            getitem (grid_size c) g i j = inr (value (left (boundary_conditions c)))) ∧
         (type (bottom (boundary_conditions c)) = dirichlet → i = grid_size c - 1 →
            1 ≤ j ≤ grid_size c - 2 →
            getitem (grid_size c) g i j = inr (value (bottom (boundary_conditions c)))) ∧
         (type (top (boundary_conditions c)) = dirichlet → i = 0 →
            1 ≤ j ≤ grid_size c - 2 →
            getitem (grid_size c) g i j = inr (value (top (boundary_conditions c))))) ∧
      (getitem (grid_size c) boundary_mask i j = inr false →
         getitem (grid_size c) u0 i j = inr 0%float).
Proof.
  intros Hn.
  destruct (solve_keeps_dirichlet c Hn) as (u0 & mask & r & E0 & Em & Er & Hr & Hfix).
  set (n := grid_size c) in *. set (bc := boundary_conditions c) in *.
  destruct (setup_spec n bc u0 mask Hn E0 Em) as (Hu0 & [Hm Hmask] & Hstamp).
  exists u0, mask, r. split_and!; try done.
  intros i j Hi Hj.
  pose proof (stamped_cases n bc (value (top bc)) (value (bottom bc))
                (value (left bc)) (value (right bc)) 0%float i j Hn Hi Hj)
    as (SR & SL & SB & ST).
  pose proof (dirichlet_cell_true n bc i j ltac:(lia) ltac:(lia) ltac:(lia)) as HD.
  assert (cell u0 (Z.to_nat i) (Z.to_nat j) =
          Some (stamped n bc (value (top bc)) (value (bottom bc))
                  (value (left bc)) (value (right bc))
                  (Z.to_nat i) (Z.to_nat j) 0%float)) as H0 by (apply Hstamp; lia).
  split.
  - intros g Hg.
    assert (dirichlet_cell n bc (Z.to_nat i) (Z.to_nat j) = true →
            ∀ v, stamped n bc (value (top bc)) (value (bottom bc))
                   (value (left bc)) (value (right bc))
                   (Z.to_nat i) (Z.to_nat j) 0%float = v →
                 getitem n g i j = inr v) as Hget.
    { intros Hcell v Hv. destruct Hg as [-> | ->].
      - apply getitem_cell; [done..|]. by rewrite H0, Hv.
      - apply getitem_cell; [done..|]. by rewrite Hfix, H0, Hv. }
    split_and!.
    + intros T E. apply Hget; [apply HD; tauto|by apply SR].
    + intros T E Hn2. apply Hget; [apply HD; tauto|by apply SL].
    + intros T E Hj'. apply Hget; [apply HD; tauto|by apply SB].
    + intros T E Hj'. apply Hget; [apply HD; tauto|by apply ST].
  - intros Hfalse. apply getitem_cell in Hfalse; [|done..].
    rewrite Hmask in Hfalse by lia. simplify_eq.
    apply getitem_cell; [done..|]. rewrite H0. f_equal.
    by apply stamped_off_dirichlet.
Qed.

(** ** How long the loop runs *)

(** X3.  The loop never stops before its twelfth iteration unless the cap
    is reached first: a run completes at least [min(12, max_iterations)]
    iterations, and with a cap of 11 or less it never reports convergence,
    whatever the tolerance. *)
Theorem at_least_twelve_iterations (c : Config) :
  1 ≤ grid_size c →
  ∃ r, solve c = inr r ∧
    Z.min 12 (Z.max 0 (max_iterations c)) ≤ Z.of_nat (length (convergence_history r)) ∧
    (max_iterations c ≤ 11 → converged r = false ∧ final_iteration r = None).
Proof.
  intros Hn.
  destruct (solve_bookkeeping c Hn) as (r & Er & Hlen & Htest & Hfin).
  exists r. split; [done|].
  destruct (converged r) eqn:Hc.
  - destruct Hfin as [Hfin Hpos].
    destruct (lookup_lt_is_Some_2 (convergence_history r)
                (pred (length (convergence_history r)))) as [x Hlast]; [lia|].
    assert (convergence_test x (tolerance c)
              (Z.of_nat (pred (length (convergence_history r)))) = true)
      as [_ Hgt]%convergence_test_true.
    { apply (Htest _ x Hlast). split; [done|lia]. }
    split; [lia|]. intros Hcap. lia.
  - destruct Hfin as [Hfin Hfull]. split; [lia|]. done.
Qed.

Lemma iterate_app (n : Z) (bc : BoundaryConditions) (boundary_mask : list (list bool))
    (tol : float) (l1 l2 : list Z) (st : LoopState) :
  converged st = false →
  iterate n bc boundary_mask tol (l1 ++ l2) st =
  (st1 <- iterate n bc boundary_mask tol l1 st ;;
   if converged st1 then inr st1 else iterate n bc boundary_mask tol l2 st1).
Proof.
  revert st. induction l1 as [|x l1 IH]; intros st Hc; cbn [app iterate bind].
  - by rewrite Hc.
  - destruct (iteration_body n bc boundary_mask tol x st) as [e|st'];
      cbn [bind]; [done|].
    destruct (converged st') eqn:Hc'; cbn [bind]; [by rewrite Hc'|].
    by apply IH.
Qed.

(** X4.  Raising the iteration cap only appends: with the same grid size,
    boundary conditions and tolerance, the history of the run with the
    smaller cap is a prefix of the history of the run with the larger one,
    and a run that converged is returned unchanged under the larger
    cap. *)
Theorem larger_cap_extends_the_run (c1 c2 : Config) :
  1 ≤ grid_size c1 →
  grid_size c1 = grid_size c2 →
  boundary_conditions c1 = boundary_conditions c2 →
  tolerance c1 = tolerance c2 →
  max_iterations c1 ≤ max_iterations c2 →
  ∃ r1 r2, solve c1 = inr r1 ∧ solve c2 = inr r2 ∧
    convergence_history r1 `prefix_of` convergence_history r2 ∧
    (converged r1 = true → r2 = r1).
Proof.
  destruct c1 as [n bc tol m1], c2 as [n2 bc2 tol2 m2]. cbn.
  intros Hn <- <- <- Hm.
  destruct (initial_grid_spec n bc Hn) as (u0 & E0 & _).
  destruct (make_mask_spec n bc Hn) as (mask & Em & _).
  destruct (setup_spec n bc u0 mask Hn E0 Em) as (Hu0 & Hmask & _).
  assert (∀ a, shape n a → ∃ a' mc,
            sweep n bc mask a = inr a' ∧ np_max (abs_diff a' a) = inr mc ∧
            shape n a' ∧ True) as Hstep.
  { intros a Ha. destruct (step_total n bc mask a) as (a' & mc & ? & ? & ?); [done..|].
    by exists a', mc. }
  unfold solve. cbn. rewrite E0, Em. cbn [bind]. unfold range. rewrite !Z.sub_0_r.
  fold (initial_state u0).
  destruct (iterate_spec n bc mask tol (shape n) (λ _, True) Hstep
              (Z.to_nat m1) 0 (initial_state u0) Hu0 eq_refl)
    as (r1 & h1 & Er1 & Hr1 & _ & Hh1 & _ & _ & _ & Hfin1).
  assert (seqZ 0 (Z.of_nat (Z.to_nat m1)) = seqZ 0 m1) as Hseq1.
  { unfold seqZ. by rewrite Nat2Z.id. }
  rewrite Hseq1 in Er1.
  destruct (decide (m1 ≤ 0)) as [Hm1|Hm1].
  - (* no iteration under the smaller cap *)
    rewrite seqZ_nil in Er1 by done. cbn in Er1. simplify_eq.
    destruct (iterate_spec n bc mask tol (shape n) (λ _, True) Hstep
                (Z.to_nat m2) 0 (initial_state u0) Hu0 eq_refl)
      as (r2 & h2 & Er2 & _).
    assert (seqZ 0 (Z.of_nat (Z.to_nat m2)) = seqZ 0 m2) as Hseq2.
    { unfold seqZ. by rewrite Nat2Z.id. }
    rewrite Hseq2 in Er2.
    exists (initial_state u0), r2. rewrite seqZ_nil by done.
    split_and!; [done|done|apply prefix_nil|done].
  - replace m2 with (m1 + (m2 - m1)) by lia.
    rewrite seqZ_app by lia.
    rewrite iterate_app, Er1 by done. cbn [bind].
    destruct (converged r1) eqn:Hc1.
    + exists r1, r1. split_and!; done.
    + destruct (iterate_spec n bc mask tol (shape n) (λ _, True) Hstep
                  (Z.to_nat (m2 - m1)) (0 + m1) r1 Hr1 Hc1)
        as (r2 & h2 & Er2 & _ & _ & Hh2 & _).
      assert (seqZ (0 + m1) (Z.of_nat (Z.to_nat (m2 - m1))) = seqZ (0 + m1) (m2 - m1))
        as Hseq2.
      { unfold seqZ. by rewrite Nat2Z.id. }
      rewrite Hseq2 in Er2.
      exists r1, r2. split_and!; [done|done| |intros ?; congruence].
      rewrite Hh2. by apply prefix_app_r.
Qed.

(** ** The recorded changes *)



Lemma abs_not_negative (z : float) : PrimFloat.ltb (PrimFloat.abs z) 0 = false.
Proof.
  rewrite FloatAxioms.ltb_spec, FloatAxioms.abs_spec.
  change (Prim2SF 0) with (SpecFloat.S754_zero false).
  by destruct (Prim2SF z) as [[]|[]| |[] m e].
Qed.

Lemma foldl_np_maximum_elem (xs : list float) (x : float) :
  foldl np_maximum x xs ∈ x :: xs.
Proof.
  revert x. induction xs as [|y xs IH]; intros x; cbn [foldl].
  - apply elem_of_cons. by left.
  - specialize (IH (np_maximum x y)). apply elem_of_cons in IH as [->|IH].
    + unfold np_maximum. destruct (_ || _); rewrite !elem_of_cons; auto.
    + rewrite !elem_of_cons. auto.
Qed.

Lemma np_max_elem (a : list (list float)) (m : float) :
  np_max a = inr m → m ∈ concat a.
Proof.
  unfold np_max. destruct (concat a) as [|x xs]; [done|].
  intros ?. simplify_eq. apply foldl_np_maximum_elem.
Qed.

Lemma abs_diff_elem (a b : list (list float)) (z : float) :
  z ∈ concat (abs_diff a b) → ∃ w, z = PrimFloat.abs w.
Proof.
  rewrite list_elem_of_In, in_concat. intros (row & Hrow & Hz).
  apply list_elem_of_In in Hrow, Hz. unfold abs_diff in Hrow.
  apply elem_of_zip_with in Hrow as (ra & rb & -> & _ & _).
  apply elem_of_zip_with in Hz as (x & y & -> & _ & _). eauto.
Qed.

(** A run whose recorded changes are all absolute values. *)
Lemma solve_records_abs (c : Config) :
  1 ≤ grid_size c →
  ∃ r, solve c = inr r ∧
    Forall is_abs (convergence_history r) ∧
    (∀ idx max_change, convergence_history r !! idx = Some max_change →
       convergence_test max_change (tolerance c) (Z.of_nat idx) = true ↔
       converged r = true ∧ S idx = length (convergence_history r)) ∧
    (if converged r
     then (1 ≤ length (convergence_history r))%nat
     else final_iteration r = None ∧
          length (convergence_history r) = Z.to_nat (max_iterations c)).
Proof.
  intros Hn.
  destruct (solve_spec c (shape (grid_size c)) is_abs)
    as (u0 & mask & r & _ & _ & Er & _ & _ & Habs & _ & Htest & Hfin); [done| |].
  - intros u0 mask E0 Em.
    destruct (setup_spec _ _ u0 mask Hn E0 Em) as (Hu0 & Hm & _).
    split; [done|]. intros a Ha.
    destruct (step_total (grid_size c) (boundary_conditions c) mask a)
      as (a' & mc & ? & Hmc & ?); [done..|].
    exists a', mc. split_and!; try done.
    apply np_max_elem in Hmc. by apply abs_diff_elem in Hmc.
  - exists r. split_and!; try done. destruct (converged r); [by destruct Hfin|done].
Qed.

(** X5.  No recorded [max_change] is negative: [max_change < 0] is false
    for every entry of the convergence history (an entry is a
    non-negative number, [inf] or NaN). *)
Theorem recorded_changes_are_not_negative (c : Config) :
  1 ≤ grid_size c →
  ∃ r, solve c = inr r ∧
    ∀ iteration max_change,
      convergence_history r !! iteration = Some max_change →
      PrimFloat.ltb max_change 0 = false.
Proof.
  intros Hn. destruct (solve_records_abs c Hn) as (r & Er & Habs & _).
  exists r. split; [done|]. intros k mc Hk.
  rewrite Forall_lookup in Habs. destruct (Habs k mc Hk) as [w ->].
  apply abs_not_negative.
Qed.


(** ** Grids without an interior *)

(** X7.  On a grid of size 1 or 2 there is no interior cell and no edge
    cell between corners, so no sweep writes anything: the run returns
    the initial grid, whatever the boundary conditions, the tolerance and
    the number of iterations. *)
Theorem grids_without_interior_never_change (c : Config) :
  1 ≤ grid_size c ≤ 2 →
  ∃ u0 r,
    initial_grid (grid_size c) (boundary_conditions c) = inr u0 ∧
    solve c = inr r ∧ u r = u0.
Proof.
  intros Hn. set (n := grid_size c) in *. set (bc := boundary_conditions c).
  destruct (initial_grid_spec n bc) as (u0 & E0 & Hu0 & _); [lia|].
  destruct (solve_spec c (λ a, a = u0) (λ _, True))
    as (u0' & mask' & r & _ & _ & Er & Hr & _); [lia| |].
  - intros u0' mask E0' Em. fold n bc in E0', Em. rewrite E0 in E0'. simplify_eq.
    split; [done|]. intros a ->.
    destruct (setup_spec n bc u0' mask ltac:(lia) E0 Em) as (_ & Hm & _).
    destruct (sweep_spec n bc mask u0' Hm Hu0) as (a' & E & Ha' & _ & Hrest & _).
    destruct (np_max_total n a' u0') as [mc Hmc]; [lia|done..|].
    exists a', mc. split_and!; try done.
    apply (array_ext n); [done..|]. intros p q.
    assert (in_slice n p = false) as Hp by (apply in_slice_false; lia).
    assert (in_slice n q = false) as Hq by (apply in_slice_false; lia).
    apply Hrest; [by left|by apply corner_not_updated].
  - by exists u0, r.
Qed.

(** ** Mirror symmetry *)









(** * Properties of the presentation code *)

(** ** The values of the heat map *)

Lemma float_ltb_leb (x y : float) : PrimFloat.ltb x y = true → PrimFloat.leb x y = true.
Proof.
  rewrite FloatAxioms.ltb_spec, FloatAxioms.leb_spec.
  unfold SpecFloat.SFltb, SpecFloat.SFleb.
  by destruct (SpecFloat.SFcompare _ _) as [[]|].
Qed.

(** A clipped value is a NaN or lies between 0 and 1. *)
Lemma clip01_range (x : float) :
  PrimFloat.is_nan (clip01 x) = true ∨
  PrimFloat.leb 0 (clip01 x) = true ∧ PrimFloat.leb (clip01 x) 1 = true.
Proof.
  unfold clip01. destruct (PrimFloat.is_nan x) eqn:N.
  - rewrite N. by left.
  - destruct (PrimFloat.ltb 0 x) eqn:P.
    + rewrite N. destruct (PrimFloat.ltb x 1) eqn:U.
      * right. split; by apply float_ltb_leb.
      * right. by split.
    + right. by split.
Qed.

Lemma concat_fmap_fmap {A B : Type} (f : A → B) (l : list (list A)) :
  concat ((λ row : list A, f <$> row) <$> l) = f <$> concat l.
Proof. induction l as [|r l IH]; cbn; [done|]. by rewrite fmap_app, IH. Qed.

(** On a grid with at least one cell the numeric part of [create_heatmap]
    does not raise. *)
Lemma heatmap_values_total (data : list (list float)) :
  concat data ≠ [] → ∃ heatmap, heatmap_values data = inr heatmap.
Proof.
  intros Hne. unfold heatmap_values.
  set (data' := if _ || _ then _ else data).
  assert (concat data' ≠ []) as Hne'.
  { subst data'. destruct (_ || _); [|done].
    rewrite concat_fmap_fmap. by destruct (concat data). }
  unfold np_nanmin, np_nanmax.
  destruct (concat data') as [|x xs]; [done|]. cbn [bind]. eauto.
Qed.

(** An [n x n] grid with [n >= 1] has a cell. *)
Lemma shape_nonempty (n : Z) (a : list (list float)) :
  1 ≤ n → shape n a → concat a ≠ [].
Proof.
  intros Hn [Hlen Hrows].
  destruct a as [|row a]; [cbn in Hlen; lia|].
  assert (length row = Z.to_nat n) as Hrow by (apply Hrows, elem_of_cons; by left).
  destruct row; [cbn in Hrow; lia|done].
Qed.

(** X12.  [create_heatmap] raises (a [ValueError] of [np.nanmin]) exactly
    on a grid without cells.  On any other grid, whatever it contains, it
    keeps the shape, and every normalised value it colours is a NaN or
    lies in [[0, 1]]. *)
Theorem heatmap_values_are_clipped (data : list (list float)) :
  match heatmap_values data with
  | inl e => concat data = [] ∧ e = ValueError
  | inr (normalized, vmin, vmax) =>
      concat data ≠ [] ∧
      length normalized = length data ∧
      (∀ i row, normalized !! i = Some row →
         ∃ data_row, data !! i = Some data_row ∧ length row = length data_row) ∧
      ∀ row v, row ∈ normalized → v ∈ row →
        PrimFloat.is_nan v = true ∨
        PrimFloat.leb 0 v = true ∧ PrimFloat.leb v 1 = true
  end.
Proof.
  unfold heatmap_values.
  set (data' := if _ || _ then _ else data).
  assert (length data' = length data ∧
          (∀ i row, data' !! i = Some row →
             ∃ data_row, data !! i = Some data_row ∧ length row = length data_row) ∧
          (concat data' = [] ↔ concat data = [])) as (Hlen & Hrows & Hempty).
  { subst data'. destruct (_ || _).
    - split_and!.
      + by rewrite length_fmap.
      + intros i row. rewrite list_lookup_fmap.
        destruct (data !! i) as [dr|]; [|done]. intros ?; simplify_eq/=.
        exists dr. by rewrite length_fmap.
      + rewrite concat_fmap_fmap. by destruct (concat data).
    - split_and!; [done| |done]. intros i row ->. eauto. }
  unfold np_nanmin, np_nanmax.
  destruct (concat data') as [|x xs] eqn:E.
  - cbn. split; [by apply Hempty|done].
  - cbn [bind]. split; [|split; [|split]].
    + intros H0. apply Hempty in H0. done.
    + by rewrite length_fmap.
    + intros i row. rewrite list_lookup_fmap.
      destruct (data' !! i) as [dr|] eqn:Ei; [|done]. intros ?; simplify_eq/=.
      destruct (Hrows i dr Ei) as (data_row & ? & ?).
      exists data_row. by rewrite length_fmap.
    + intros row v (dr & -> & _)%list_elem_of_fmap (y & -> & _)%list_elem_of_fmap.
      apply clip01_range.
Qed.

(** ** Frames of the animation *)

Lemma update_freq_pos (m : Z) : 1 ≤ update_freq m.
Proof. unfold update_freq. lia. Qed.

Lemma multiple_bound (c f k : Z) :
  1 ≤ f → k mod f = 0 → c * f ≤ k + f - 1 → c * f ≤ k.
Proof.
  intros Hf Hmod H.
  pose proof (Z.div_mod k f ltac:(lia)) as Hk. rewrite Hmod, Z.add_0_r in Hk.
  assert (c ≤ k / f) by nia. nia.
Qed.

(** However large the cap, the schedule plays fewer than fifty frames. *)
Lemma frame_count_bound (c m L : Z) :
  0 ≤ c → L ≤ Z.max 0 m →
  c * update_freq m ≤
    L + update_freq m - 1 + (if decide (update_freq m = 1) then 0 else update_freq m) →
  c ≤ 49.
Proof.
  unfold update_freq. intros Hc HL H.
  pose proof (Z.div_mod m 25 ltac:(lia)) as Hm.
  pose proof (Z.mod_pos_bound m 25 ltac:(lia)).
  case_decide as E.
  - rewrite E in H. lia.
  - assert (2 ≤ m / 25) by lia. replace (Z.max 1 (m / 25)) with (m / 25) in * by lia.
    nia.
Qed.

(** The loop body of the animation is the loop body of the solver, plus
    the frame. *)
Lemma animated_body_spec (n : Z) (bc : BoundaryConditions)
    (boundary_mask : list (list bool)) (tol : float) (m iteration : Z)
    (st : LoopState) (played : list Frame) :
  1 ≤ n → boundary_mask_of n bc boundary_mask → shape n (u st) →
  ∃ st' max_change new_heatmap,
    iteration_body n bc boundary_mask tol iteration st = inr st' ∧
    shape n (u st') ∧
    convergence_history st' = convergence_history st ++ [max_change] ∧
    heatmap_values (u st') = inr new_heatmap ∧
    animated_body n bc boundary_mask tol m iteration st played =
    inr (st', if shows_frame m iteration (converged st')
              then played ++ [ {| shown_iteration := iteration + 1;
                                  shown_heatmap := new_heatmap;
                                  shown_max_change := max_change |} ]
              else played).
Proof.
  intros Hn Hmask Hshape. unfold iteration_body, animated_body.
  destruct (step_total n bc boundary_mask (u st) Hn Hmask Hshape)
    as (u_new & mc & Es & Emc & Hshape').
  destruct (heatmap_values_total u_new (shape_nonempty n u_new Hn Hshape'))
    as [hm Ehm].
  rewrite Es. cbn [bind]. rewrite Emc. cbn [bind].
  destruct (convergence_test mc tol iteration); cbn [converged u convergence_history];
    eexists _, mc, hm; (split; [done|]); rewrite Ehm;
    split_and!; try done; by destruct (shows_frame _ _ _).
Qed.

Section frames.
Variables (n : Z) (bc : BoundaryConditions) (boundary_mask : list (list bool)).
Variables (tol : float) (m : Z).
Hypothesis (Hn : 1 ≤ n) (Hmask : boundary_mask_of n bc boundary_mask).

(** The loop of the animation from iteration [k], [len] iterations before
    the cap: it returns the state the solver's loop returns, and appends
    frames to those already played. *)
Lemma animate_spec (len : nat) (k : Z) (st r : LoopState) (played : list Frame) :
  0 ≤ k → k + Z.of_nat len = Z.max 0 m →
  iterate n bc boundary_mask tol (seqZ k (Z.of_nat len)) st = inr r →
  shape n (u st) →
  converged st = false →
  length (convergence_history st) = Z.to_nat k →
  Z.of_nat (length played) * update_freq m ≤ k + update_freq m - 1 →
  ∃ new,
    animate n bc boundary_mask tol m (seqZ k (Z.of_nat len)) st played
      = inr (r, played ++ new) ∧
    Z.of_nat (length (played ++ new)) * update_freq m ≤
      Z.of_nat (length (convergence_history r)) + update_freq m - 1
      + (if decide (update_freq m = 1) then 0 else update_freq m) ∧
    ((1 ≤ len)%nat →
       ∃ max_change new_heatmap,
         last (convergence_history r) = Some max_change ∧
         heatmap_values (u r) = inr new_heatmap ∧
         last new = Some {| shown_iteration := Z.of_nat (length (convergence_history r));
                            shown_heatmap := new_heatmap;
                            shown_max_change := max_change |}) ∧
    ((1 ≤ len)%nat → k mod update_freq m = 0 →
       ∃ first, head new = Some first ∧ shown_iteration first = k + 1).
Proof.
  pose proof (update_freq_pos m) as Hf.
  revert k st played.
  induction len as [|len IH]; intros k st played Hk Hm Hit Hshape Hc Hlen Hcount.
  - rewrite seqZ_nil in * by lia. cbn in Hit. simplify_eq.
    exists []. rewrite app_nil_r. cbn [animate].
    split; [done|]. split; [|split; intros; lia].
    rewrite Hlen. case_decide; lia.
  - rewrite seqZ_cons in * by lia. cbn [iterate animate] in *.
    replace (Z.pred (Z.of_nat (S len))) with (Z.of_nat len) in * by lia.
    destruct (animated_body_spec n bc boundary_mask tol m k st played Hn Hmask Hshape)
      as (st' & mc & hm & Eb & Hshape' & Hhist & Ehm & Hanim).
    rewrite Eb in Hit. cbn [bind] in Hit.
    rewrite Hanim. cbn [bind fst snd].
    set (frame := {| shown_iteration := k + 1; shown_heatmap := hm;
                     shown_max_change := mc |}) in *.
    assert (length (convergence_history st') = Z.to_nat (Z.succ k)) as Hlen'.
    { rewrite Hhist, length_app, Hlen. cbn [length]. lia. }
    (* what the frame test says *)
    assert (k mod update_freq m = 0 →
            Z.of_nat (length played) * update_freq m ≤ k) as Hmult.
    { intros Hmod. by apply multiple_bound. }
    destruct (converged st') eqn:Hc'.
    + (* convergence declared: the loop stops, the frame is played *)
      simplify_eq. unfold shows_frame. rewrite orb_true_r. cbn [orb].
      exists [frame]. split; [done|]. split; [|split].
      * rewrite length_app, Hlen'. cbn [length].
        destruct (decide (k mod update_freq m = 0)) as [Hmod|Hmod].
        -- specialize (Hmult Hmod). case_decide; lia.
        -- case_decide as Hf1; [|lia]. rewrite Hf1, Z.mod_1_r in Hmod. done.
      * intros _. exists mc, hm. rewrite Hhist, last_snoc. split; [done|].
        split; [done|].
        cbn [last]. unfold frame. rewrite <- Hhist, Hlen'. do 2 f_equal. lia.
      * intros _ _. by exists frame.
    + destruct len as [|len'].
      * (* the cap is reached: the last iteration is played *)
        rewrite seqZ_nil in * by lia. cbn [iterate animate] in *. simplify_eq.
        assert (shows_frame m k false = true) as ->.
        { unfold shows_frame. rewrite (bool_decide_eq_true_2 (k = m - 1)) by lia.
          by rewrite orb_true_r. }
        exists [frame]. split; [done|]. split; [|split].
        -- rewrite length_app, Hlen'. cbn [length].
           destruct (decide (k mod update_freq m = 0)) as [Hmod|Hmod].
           ++ specialize (Hmult Hmod). case_decide; lia.
           ++ case_decide as Hf1; [|lia]. rewrite Hf1, Z.mod_1_r in Hmod. done.
        -- intros _. exists mc, hm. rewrite Hhist, last_snoc. split; [done|].
           split; [done|].
           cbn [last]. unfold frame. rewrite <- Hhist, Hlen'. do 2 f_equal. lia.
        -- intros _ _. by exists frame.
      * (* the loop goes on *)
        destruct (shows_frame m k false) eqn:Hshow.
        -- assert (k mod update_freq m = 0) as Hmod.
           { unfold shows_frame in Hshow.
             rewrite (bool_decide_eq_false_2 (k = m - 1)) in Hshow by lia.
             rewrite !orb_false_r in Hshow. by apply bool_decide_eq_true in Hshow. }
           specialize (Hmult Hmod).
           destruct (IH (Z.succ k) st' (played ++ [frame]))
             as (new & Ean & Hbound & Hlast & _); [lia|lia|done|done|done|done| |].
           { rewrite length_app. cbn [length]. lia. }
           exists (frame :: new). rewrite <- app_assoc in Ean, Hbound. cbn [app] in *.
           split; [done|]. split; [done|]. split.
           ++ intros _. destruct Hlast as (mc' & hm' & Hl1 & Hl2 & Hl3); [lia|].
              exists mc', hm'. split; [done|]. split; [done|].
              destruct new as [|x new]; [done|]. exact Hl3.
           ++ intros _ _. by exists frame.
        -- assert (k mod update_freq m ≠ 0) as Hmod.
           { intros Hmod. unfold shows_frame in Hshow.
             by rewrite (bool_decide_eq_true_2 _ Hmod) in Hshow. }
           destruct (IH (Z.succ k) st' played)
             as (new & Ean & Hbound & Hlast & _); [lia|lia|done|done|done|done|lia|].
           exists new. split; [done|]. split; [done|]. split.
           ++ intros _. apply Hlast. lia.
           ++ intros _ Hmod'. done.
Qed.
End frames.

(** The animated run of a grid with at least one cell: the solver's
    result, with the frames the loop played. *)
Lemma solve_animated_spec (c : Config) :
  1 ≤ grid_size c →
  ∃ r frames,
    solve c = inr r ∧ solve_animated c = inr (r, frames) ∧
    Z.of_nat (length frames) * update_freq (max_iterations c) ≤
      Z.of_nat (length (convergence_history r)) + update_freq (max_iterations c) - 1
      + (if decide (update_freq (max_iterations c) = 1) then 0
         else update_freq (max_iterations c)) ∧
    (length (convergence_history r) ≤ Z.to_nat (max_iterations c))%nat ∧
    (1 ≤ max_iterations c →
       ∃ first max_change new_heatmap,
         head frames = Some first ∧ shown_iteration first = 1 ∧
         last (convergence_history r) = Some max_change ∧
         heatmap_values (u r) = inr new_heatmap ∧
         last frames = Some {| shown_iteration := Z.of_nat (length (convergence_history r));
                               shown_heatmap := new_heatmap;
                               shown_max_change := max_change |}).
Proof.
  intros Hn.
  destruct (solve_bookkeeping c Hn) as (r & Er & Hlen & _).
  destruct (initial_grid_spec (grid_size c) (boundary_conditions c) Hn) as (u0 & E0 & _).
  destruct (make_mask_spec (grid_size c) (boundary_conditions c) Hn) as (mask & Em & _).
  destruct (setup_spec _ _ _ _ Hn E0 Em) as (Hshape & Hmask & _).
  destruct (heatmap_values_total u0 (shape_nonempty _ u0 Hn Hshape)) as [hm0 Ehm0].
  assert (range 0 (max_iterations c) = seqZ 0 (Z.of_nat (Z.to_nat (max_iterations c))))
    as Hrange.
  { unfold range, seqZ. by rewrite Z.sub_0_r, Nat2Z.id. }
  pose proof Er as Hit. unfold solve in Hit. rewrite E0, Em in Hit. cbn [bind] in Hit.
  rewrite Hrange in Hit.
  destruct (animate_spec (grid_size c) (boundary_conditions c) mask (tolerance c)
              (max_iterations c) Hn Hmask (Z.to_nat (max_iterations c)) 0 _ r []
              ltac:(lia) ltac:(lia) Hit Hshape eq_refl eq_refl)
    as (new & Ean & Hbound & Hlast & Hfirst).
  { pose proof (update_freq_pos (max_iterations c)). cbn [length]. lia. }
  cbn [app] in *.
  exists r, new. split; [done|]. split.
  { unfold solve_animated. rewrite E0, Em. cbn [bind]. rewrite Ehm0. cbn [bind].
    by rewrite Hrange. }
  split; [done|]. split; [done|].
  intros Hm. destruct Hlast as (mc & hm & Hl1 & Hl2 & Hl3); [lia|].
  destruct Hfirst as (first & Hf1 & Hf2); [lia|apply Zmod_0_l|].
  by exists first, mc, hm.
Qed.

(** X9.  However large the iteration cap, the loop plays fewer than fifty
    frames: at most 49 calls of [self.play] in a run. *)
Theorem animation_plays_fewer_than_fifty_frames (c : Config) :
  1 ≤ grid_size c →
  ∃ r frames,
    solve c = inr r ∧ solve_animated c = inr (r, frames) ∧
    (length frames ≤ 49)%nat.
Proof.
  intros Hn. destruct (solve_animated_spec c Hn) as (r & frames & Er & Ea & Hb & Hlen & _).
  exists r, frames. split_and!; try done.
  assert (Z.of_nat (length frames) ≤ 49); [|lia].
  apply (frame_count_bound _ (max_iterations c)
           (Z.of_nat (length (convergence_history r)))); [lia|lia|done].
Qed.

(** X10.  When at least one iteration runs, the first frame played is
    that of the first iteration, and the last frame played shows the
    final state: the heat map of the grid the run returns, the number of
    iterations completed and the last recorded [max_change]. *)
Theorem first_and_final_iteration_are_played (c : Config) :
  1 ≤ grid_size c → 1 ≤ max_iterations c →
  ∃ r frames first max_change new_heatmap,
    solve c = inr r ∧ solve_animated c = inr (r, frames) ∧
    head frames = Some first ∧ shown_iteration first = 1 ∧
    last (convergence_history r) = Some max_change ∧
    heatmap_values (u r) = inr new_heatmap ∧
    last frames = Some {| shown_iteration := Z.of_nat (length (convergence_history r));
                          shown_heatmap := new_heatmap;
                          shown_max_change := max_change |}.
Proof.
  intros Hn Hm.
  destruct (solve_animated_spec c Hn) as (r & frames & Er & Ea & _ & _ & Hframes).
  destruct (Hframes Hm) as (first & mc & hm & ? & ? & ? & ? & ?).
  by exists r, frames, first, mc, hm.
Qed.

(** ** The convergence plot *)








(** ** The scene on a grid without cells *)


(** ** Boundary values that are all zero *)

(** A grid of the right shape whose cells are all [0.0] is the grid
    [np.zeros] returns. *)
Lemma zero_grid_eq (n : Z) (a : list (list float)) :
  shape n a →
  (∀ p q, Z.of_nat p < n → Z.of_nat q < n → cell a p q = Some 0%float) →
  a = replicate (Z.to_nat n) (replicate (Z.to_nat n) 0%float).
Proof.
  intros Ha Hcells.
  destruct (decide (0 ≤ n)) as [Hn|Hn].
  - apply (array_ext n); [done|by apply shape_replicate|].
    intros p q. rewrite cell_replicate. case_decide as Hpq.
    + apply Hcells; lia.
    + destruct (cell a p q) eqn:E; [|done].
      apply (cell_lt n) in E; [lia|done].
  - destruct Ha as [Hlen _]. replace (Z.to_nat n) with 0%nat in * by lia.
    by destruct a.
Qed.

(** With the four boundary values zero, a sweep of the zero grid returns
    the zero grid, and the recorded change is [0.0]. *)
Lemma sweep_zero_grid (n : Z) (bc : BoundaryConditions)
    (boundary_mask : list (list bool)) :
  1 ≤ n → boundary_mask_of n bc boundary_mask →
  value (top bc) = 0%float → value (bottom bc) = 0%float →
  value (left bc) = 0%float → value (right bc) = 0%float →
  let zeros := replicate (Z.to_nat n) (replicate (Z.to_nat n) 0%float) in
  sweep n bc boundary_mask zeros = inr zeros ∧
  np_max (abs_diff zeros zeros) = inr 0%float.
Proof.
  intros Hn Hmask Ht Hb Hl Hr zeros.
  split; [|apply np_max_zeros; lia].
  assert (shape n zeros) as Hz by (apply shape_replicate; lia).
  assert (∀ p q, Z.of_nat p < n → Z.of_nat q < n → cell zeros p q = Some 0%float)
    as Hcells.
  { intros p q Hp Hq. unfold zeros. rewrite cell_replicate, decide_True; [done|lia]. }
  destruct (sweep_spec n bc boundary_mask zeros Hmask Hz)
    as (a' & -> & Ha' & Hint & Hrest & Htop & Hbottom & Hleft & Hright).
  f_equal. apply zero_grid_eq; [done|].
  assert (∀ p q, in_slice n p = true → in_slice n q = true → cell a' p q = Some 0%float)
    as Hin.
  { intros p q Hp Hq. rewrite (Hint p q Hp Hq). unfold mean_at.
    by rewrite !(value_at_zero n zeros). }
  intros p q Hp Hq.
  destruct (neumann_cell n bc p q) eqn:Hneu.
  - unfold neumann_cell in Hneu.
    destruct (top_update n bc p q) eqn:E1; [|
    destruct (bottom_update n bc p q) eqn:E2; [|
    destruct (left_update n bc p q) eqn:E3; [|
    destruct (right_update n bc p q) eqn:E4; [|done]]]].
    + rewrite (Htop p q E1), Ht. unfold top_update in E1.
      apply andb_true_iff in E1 as [_ Hq'].
      rewrite Hin; [done| |done]. apply in_slice_true. apply in_slice_true in Hq'. lia.
    + rewrite (Hbottom p q E2), Hb. unfold bottom_update in E2.
      apply andb_true_iff in E2 as [_ Hq'].
      rewrite Hin; [done| |done]. apply in_slice_true. apply in_slice_true in Hq'. lia.
    + rewrite (Hleft p q E3), Hl. unfold left_update in E3.
      apply andb_true_iff in E3 as [_ Hp'].
      rewrite Hin; [done|done|]. apply in_slice_true. apply in_slice_true in Hp'. lia.
    + rewrite (Hright p q E4), Hr. unfold right_update in E4.
      apply andb_true_iff in E4 as [_ Hp'].
      rewrite Hin; [done|done|]. apply in_slice_true. apply in_slice_true in Hp'. lia.
  - destruct (in_slice n p) eqn:Ep, (in_slice n q) eqn:Eq.
    + by apply Hin.
    + rewrite Hrest; [by apply Hcells|by right|done].
    + rewrite Hrest; [by apply Hcells|by left|done].
    + rewrite Hrest; [by apply Hcells|by left|done].
Qed.

(** X14.  With the four boundary values [0.0], whatever the edge types,
    nothing ever moves: the returned grid is [0.0] everywhere and every
    recorded [max_change] is [0.0].  With a positive tolerance and a cap
    of at least 12 the run reports convergence after exactly 12
    iterations. *)
Theorem zero_boundary_values_keep_the_grid_at_zero (c : Config) :
  1 ≤ grid_size c →
  value (top (boundary_conditions c)) = 0%float →
  value (bottom (boundary_conditions c)) = 0%float →
  value (left (boundary_conditions c)) = 0%float →
  value (right (boundary_conditions c)) = 0%float →
  ∃ r, solve c = inr r ∧
    (∀ i j, 0 ≤ i < grid_size c → 0 ≤ j < grid_size c →
       getitem (grid_size c) (u r) i j = inr 0%float) ∧
    (∀ iteration max_change,
       convergence_history r !! iteration = Some max_change → max_change = 0%float) ∧
    (PrimFloat.ltb 0 (tolerance c) = true → 12 ≤ max_iterations c →
       converged r = true ∧ final_iteration r = Some 12).
Proof.
  intros Hn Ht Hb Hl Hr.
  set (n := grid_size c) in *. set (bc := boundary_conditions c) in *.
  set (zeros := replicate (Z.to_nat n) (replicate (Z.to_nat n) 0%float)).
  destruct (solve_spec c (λ a, a = zeros) (λ max_change, max_change = 0%float))
    as (u0 & mask & r & E0 & Em & Er & Hur & _ & Hhist & Hlen & Htest & Hfin); [done| |].
  { intros u0 mask E0 Em. fold n bc in E0, Em.
    destruct (setup_spec n bc u0 mask Hn E0 Em) as (Hshape & Hmask & Hcells).
    split.
    - apply zero_grid_eq; [done|]. intros p q Hp Hq.
      rewrite (Hcells p q Hp Hq), Ht, Hb, Hl, Hr. by rewrite stamped_same.
    - intros a ->.
      destruct (sweep_zero_grid n bc mask Hn Hmask Ht Hb Hl Hr) as [Es Emc].
      by exists zeros, 0%float. }
  cbn beta in Hur. rewrite Forall_lookup in Hhist.
  exists r. split; [done|]. split; [|split; [exact Hhist|]].
  - intros i j Hi Hj. rewrite Hur.
    apply getitem_cell; [apply shape_replicate; lia|done..|].
    unfold zeros. rewrite cell_replicate, decide_True; [done|lia].
  - intros Htol Hmax.
    assert (∀ idx, (idx < length (convergence_history r))%nat →
              (10 < idx)%nat ↔ S idx = length (convergence_history r) ∧ converged r = true)
      as Hidx.
    { intros idx Hlt. destruct (lookup_lt_is_Some_2 _ _ Hlt) as [mc Hmc].
      pose proof (Htest idx mc Hmc) as Hiff. rewrite (Hhist idx mc Hmc) in Hiff.
      unfold convergence_test in Hiff. rewrite Htol in Hiff. cbn [andb] in Hiff.
      rewrite bool_decide_eq_true in Hiff. split.
      - intros H10. destruct Hiff as [Hiff _]. destruct Hiff; [lia|done].
      - intros [? ?]. destruct Hiff as [_ Hiff].
        assert (Z.of_nat idx > 10) by (by apply Hiff). lia. }
    destruct (converged r) eqn:Hc.
    + destruct Hfin as [-> Hpos]. split; [done|]. do 2 f_equal.
      assert (10 < pred (length (convergence_history r)))%nat as H10.
      { apply Hidx; [lia|]. split; [lia|done]. }
      destruct (decide (length (convergence_history r) = 12%nat)) as [->|Hne]; [done|].
      assert (S 11 = length (convergence_history r) ∧ true = true) as [? _]; [|lia].
      apply Hidx; lia.
    + destruct Hfin as [_ Hfull].
      assert (S 11 = length (convergence_history r) ∧ false = true) as [_ ?]; [|done].
      apply Hidx; lia.
Qed.

(** ** The further properties at concrete inputs *)

(** X1 at a [3 x 3] grid with four Dirichlet edges. *)
Lemma boundary_mask_marks_dirichlet_edges_witness :
  1 ≤ 3 ∧
  ∃ boundary_mask,
    make_mask 3 (uniform_dirichlet 1%float) = inr boundary_mask ∧
    ∀ i j, 0 ≤ i < 3 → 0 ≤ j < 3 →
      ∃ marked, getitem 3 boundary_mask i j = inr marked ∧
        (marked = true ↔
         (type (top (uniform_dirichlet 1%float)) = dirichlet ∧ i = 0) ∨
         (type (bottom (uniform_dirichlet 1%float)) = dirichlet ∧ i = 3 - 1) ∨
         (type (left (uniform_dirichlet 1%float)) = dirichlet ∧ j = 0) ∨
         (type (right (uniform_dirichlet 1%float)) = dirichlet ∧ j = 3 - 1)).
Proof.
  split; [first [cbn; lia | reflexivity]|].
  apply (boundary_mask_marks_dirichlet_edges 3 (uniform_dirichlet 1%float));
    first [cbn; lia | reflexivity].
Defined.

(** X2 at the [5 x 5] grid with every edge held at 100. *)
Lemma dirichlet_edges_hold_their_values_witness :
  1 ≤ grid_size steady_state_example ∧
  ∃ u0 boundary_mask r,
    initial_grid (grid_size steady_state_example) (boundary_conditions steady_state_example) = inr u0 ∧
    make_mask (grid_size steady_state_example) (boundary_conditions steady_state_example) = inr boundary_mask ∧
    solve steady_state_example = inr r ∧
    ∀ i j, 0 ≤ i < grid_size steady_state_example → 0 ≤ j < grid_size steady_state_example →
      (∀ g, g = u0 ∨ g = u r →
         (type (right (boundary_conditions steady_state_example)) = dirichlet → j = grid_size steady_state_example - 1 →
            getitem (grid_size steady_state_example) g i j = inr (value (right (boundary_conditions steady_state_example)))) ∧
         (type (left (boundary_conditions steady_state_example)) = dirichlet → j = 0 → 2 ≤ grid_size steady_state_example →
            getitem (grid_size steady_state_example) g i j = inr (value (left (boundary_conditions steady_state_example)))) ∧
         (type (bottom (boundary_conditions steady_state_example)) = dirichlet → i = grid_size steady_state_example - 1 →
            1 ≤ j ≤ grid_size steady_state_example - 2 →
            getitem (grid_size steady_state_example) g i j = inr (value (bottom (boundary_conditions steady_state_example)))) ∧
         (type (top (boundary_conditions steady_state_example)) = dirichlet → i = 0 →
            1 ≤ j ≤ grid_size steady_state_example - 2 →
            getitem (grid_size steady_state_example) g i j = inr (value (top (boundary_conditions steady_state_example))))) ∧
      (getitem (grid_size steady_state_example) boundary_mask i j = inr false →
         getitem (grid_size steady_state_example) u0 i j = inr 0%float).
Proof.
  split; [first [cbn; lia | reflexivity]|].
  apply (dirichlet_edges_hold_their_values steady_state_example);
    first [cbn; lia | reflexivity].
Defined.

(** X3 at the [5 x 5] run with a cap of 500 iterations. *)
Lemma at_least_twelve_iterations_witness :
  1 ≤ grid_size converging_example ∧
  ∃ r, solve converging_example = inr r ∧
    Z.min 12 (Z.max 0 (max_iterations converging_example)) ≤ Z.of_nat (length (convergence_history r)) ∧
    (max_iterations converging_example ≤ 11 → converged r = false ∧ final_iteration r = None).
Proof.
  split; [first [cbn; lia | reflexivity]|].
  apply (at_least_twelve_iterations converging_example);
    first [cbn; lia | reflexivity].
Defined.

(** X4 at the [5 x 5] grid with a cap of 1 and a cap of 500. *)
Lemma larger_cap_extends_the_run_witness :
  1 ≤ grid_size steady_state_example ∧
  grid_size steady_state_example = grid_size converging_example ∧
  boundary_conditions steady_state_example = boundary_conditions converging_example ∧
  tolerance steady_state_example = tolerance converging_example ∧
  max_iterations steady_state_example ≤ max_iterations converging_example ∧
  ∃ r1 r2, solve steady_state_example = inr r1 ∧ solve converging_example = inr r2 ∧
    convergence_history r1 `prefix_of` convergence_history r2 ∧
    (converged r1 = true → r2 = r1).
Proof.
  split; [first [cbn; lia | reflexivity]|].
  split; [first [cbn; lia | reflexivity]|].
  split; [first [cbn; lia | reflexivity]|].
  split; [first [cbn; lia | reflexivity]|].
  split; [first [cbn; lia | reflexivity]|].
  apply (larger_cap_extends_the_run steady_state_example converging_example);
    first [cbn; lia | reflexivity].
Defined.

(** X5 at the [5 x 5] run with a cap of 500 iterations. *)
Lemma recorded_changes_are_not_negative_witness :
  1 ≤ grid_size converging_example ∧
  ∃ r, solve converging_example = inr r ∧
    ∀ iteration max_change,
      convergence_history r !! iteration = Some max_change →
      PrimFloat.ltb max_change 0 = false.
Proof.
  split; [first [cbn; lia | reflexivity]|].
  apply (recorded_changes_are_not_negative converging_example);
    first [cbn; lia | reflexivity].
Defined.


(** X7 at a [2 x 2] grid. *)
Lemma grids_without_interior_never_change_witness :
  1 ≤ grid_size small_grid_example ≤ 2 ∧
  ∃ u0 r,
    initial_grid (grid_size small_grid_example) (boundary_conditions small_grid_example) = inr u0 ∧
    solve small_grid_example = inr r ∧ u r = u0.
Proof.
  split; [first [cbn; lia | reflexivity]|].
  apply (grids_without_interior_never_change small_grid_example);
    first [cbn; lia | reflexivity].
Defined.


(** X9 at the [5 x 5] run with a cap of 500 iterations. *)
Lemma animation_plays_fewer_than_fifty_frames_witness :
  1 ≤ grid_size converging_example ∧
  ∃ r frames,
    solve converging_example = inr r ∧ solve_animated converging_example = inr (r, frames) ∧
    (length frames ≤ 49)%nat.
Proof.
  split; [first [cbn; lia | reflexivity]|].
  apply (animation_plays_fewer_than_fifty_frames converging_example);
    first [cbn; lia | reflexivity].
Defined.

(** X10 at the [5 x 5] run with a cap of 500 iterations. *)
Lemma first_and_final_iteration_are_played_witness :
  1 ≤ grid_size converging_example ∧
  1 ≤ max_iterations converging_example ∧
  ∃ r frames first max_change new_heatmap,
    solve converging_example = inr r ∧ solve_animated converging_example = inr (r, frames) ∧
    head frames = Some first ∧ shown_iteration first = 1 ∧
    last (convergence_history r) = Some max_change ∧
    heatmap_values (u r) = inr new_heatmap ∧
    last frames = Some {| shown_iteration := Z.of_nat (length (convergence_history r));
                          shown_heatmap := new_heatmap;
                          shown_max_change := max_change |}.
Proof.
  split; [first [cbn; lia | reflexivity]|].
  split; [first [cbn; lia | reflexivity]|].
  apply (first_and_final_iteration_are_played converging_example);
    first [cbn; lia | reflexivity].
Defined.


(** X14 at a [5 x 5] grid with mixed edge types and a cap of 20. *)
Lemma zero_boundary_values_keep_the_grid_at_zero_witness :
  1 ≤ grid_size zero_values_example ∧
  value (top (boundary_conditions zero_values_example)) = 0%float ∧
  value (bottom (boundary_conditions zero_values_example)) = 0%float ∧
  value (left (boundary_conditions zero_values_example)) = 0%float ∧
  value (right (boundary_conditions zero_values_example)) = 0%float ∧
  ∃ r, solve zero_values_example = inr r ∧
    (∀ i j, 0 ≤ i < grid_size zero_values_example → 0 ≤ j < grid_size zero_values_example →
       getitem (grid_size zero_values_example) (u r) i j = inr 0%float) ∧
    (∀ iteration max_change,
       convergence_history r !! iteration = Some max_change → max_change = 0%float) ∧
    (PrimFloat.ltb 0 (tolerance zero_values_example) = true → 12 ≤ max_iterations zero_values_example →
       converged r = true ∧ final_iteration r = Some 12).
Proof.
  split; [first [cbn; lia | reflexivity]|].
  split; [first [cbn; lia | reflexivity]|].
  split; [first [cbn; lia | reflexivity]|].
  split; [first [cbn; lia | reflexivity]|].
  split; [first [cbn; lia | reflexivity]|].
  apply (zero_boundary_values_keep_the_grid_at_zero zero_values_example);
    first [cbn; lia | reflexivity].
Defined.
